(** * oshi: a client for the oshi.at plain-text HTTP API

  A shallow embedding of [oshi.go] and the properties of its two response
  parsers, its upload URL builder and its four operations.

  Go strings and byte slices are [string]s (sequences of 8-bit
  characters); [string(body)] is the identity.  Integers of type [int]
  are [Z], the [uint64] expiry is an [N].  A Go function returning
  [(T, error)] returns a pair [T * option error], [None] being [nil].

  The receiver [*Client] is threaded through every operation as state
  ([M]), so that what an operation does to the client can be stated.
  What the package calls in the standard library (contexts, [net/url],
  [net/http], [io], and the Unicode case table behind [strings.ToLower])
  is the class [Runtime]; the statements hold for every instance of it. *)

From Stdlib Require Import Ascii NArith ZArith DecimalString DecimalN
  DecimalZ.
From Stdlib Require String.
From stdpp Require Import base gmap strings list fin_maps.

Local Open Scope stdpp_scope.

#[local] Arguments String.append !_ _ / : simpl nomatch.
#[local] Set Warnings "-clear-no-such-hyp".

(** ** Strings *)

Module Str.

Fixpoint all (p : ascii -> bool) (s : string) : bool :=
  match s with
  | EmptyString => true
  | String a s' => p a && all p s'
  end.

(** [s[:n]] for [n <= len(s)]. *)
Definition take (n : nat) (s : string) : string := String.substring 0 n s.

End Str.

(** ** The [regexp] package, as far as the two patterns need it

  Go's [regexp] returns, among the matches that start leftmost, the one a
  backtracking search finds first.  The matcher below is that search,
  written with a success continuation.

  Matching is done on bytes.  Go matches on UTF-8 runes, but every
  character the two patterns name is ASCII and the classes they negate
  contain only ASCII, so a rune belongs to a class exactly when each of
  its bytes does, and no match starts or ends inside a rune. *)

Module Regexp.

Inductive class_item :=
| One (a : ascii)               (* a single character *)
| Range (lo hi : ascii)         (* lo-hi *)
| PerlSpace.                    (* \s *)

(** [\s] is [[\t\n\f\r ]]. *)
Definition perl_space (a : ascii) : bool :=
  Ascii.eqb a "009" || Ascii.eqb a "010" || Ascii.eqb a "012"
  || Ascii.eqb a "013" || Ascii.eqb a " ".

Definition item_has (i : class_item) (a : ascii) : bool :=
  match i with
  | One b => Ascii.eqb a b
  | Range lo hi =>
      (N_of_ascii lo <=? N_of_ascii a)%N && (N_of_ascii a <=? N_of_ascii hi)%N
  | PerlSpace => perl_space a
  end.

(** A character class [[...]] or [[^...]]. *)
Record charset := Charset { negated : bool; items : list class_item }.

Definition charset_has (cs : charset) (a : ascii) : bool :=
  xorb (negated cs) (existsb (fun i => item_has i a) (items cs)).

(** The operators the two patterns are built from.  [+] is applied only
    to single characters and classes in both. *)
Inductive regex :=
| Char (cs : charset)               (* one character of the class *)
| Concat (r1 r2 : regex)            (* r1 r2 *)
| Quest (r : regex)                 (* r?, preferring one over none *)
| Plus (cs : charset)               (* x+, preferring more over fewer *)
| Capture (i : nat) (r : regex).    (* ( r ), the i-th group *)

Definition Lit (a : ascii) : regex := Char (Charset false [One a]).

(** The literal text [a s]. *)
Fixpoint Lits (a : ascii) (s : string) : regex :=
  match s with
  | EmptyString => Lit a
  | String b s' => Concat (Lit a) (Lits b s')
  end.

Fixpoint NumSubexp (r : regex) : nat :=
  match r with
  | Char _ | Plus _ => 0
  | Concat r1 r2 => NumSubexp r1 + NumSubexp r2
  | Quest r1 => NumSubexp r1
  | Capture _ r1 => S (NumSubexp r1)
  end.

(** The capture registers: the text of group [i] at index [i]. *)
Abbreviation caps := (list string).

(** [x*] from [s]: as many characters of [cs] as possible, giving one
    back at a time while the continuation fails. *)
Fixpoint star {R : Type} (cs : charset) (s : string)
    (k : string -> option R) : option R :=
  match s with
  | String a s' =>
      if charset_has cs a then
        match star cs s' k with
        | Some x => Some x
        | None => k s
        end
      else k s
  | EmptyString => k s
  end.

(** [run r s c k]: match [r] at the start of [s] with registers [c],
    then continue with [k] on what is left. *)
Fixpoint run {R : Type} (r : regex) (s : string) (c : caps)
    (k : string -> caps -> option R) : option R :=
  match r with
  | Char cs =>
      match s with
      | String a s' => if charset_has cs a then k s' c else None
      | EmptyString => None
      end
  | Concat r1 r2 => run r1 s c (fun s1 c1 => run r2 s1 c1 k)
  | Quest r1 =>
      match run r1 s c k with
      | Some x => Some x
      | None => k s c
      end
  | Plus cs =>
      match s with
      | String a s' =>
          if charset_has cs a then star cs s' (fun s1 => k s1 c) else None
      | EmptyString => None
      end
  | Capture i r1 =>
      run r1 s c (fun s1 c1 =>
        k s1 (<[i := Str.take (String.length s - String.length s1) s]> c1))
  end.

(** A match anchored at the start of [s]: what is left after it, and the
    registers with the whole match at index 0. *)
Definition match_here (re : regex) (s : string) : option (string * caps) :=
  run re s (replicate (S (NumSubexp re)) "")
    (fun s1 c1 =>
       Some (s1, <[0 := Str.take (String.length s - String.length s1) s]> c1)).

(** The leftmost match in [s]: the suffix it starts at, the suffix left
    after it, and its registers. *)
Fixpoint doExecute (re : regex) (s : string)
  : option (string * string * caps) :=
  match match_here re s with
  | Some (rest, c) => Some (s, rest, c)
  | None =>
      match s with
      | String _ s' => doExecute re s'
      | EmptyString => None
      end
  end.

(** [re.FindStringSubmatch(s)]: the registers of the leftmost match, or
    [nil]. *)
Definition FindStringSubmatch (re : regex) (s : string) : list string :=
  match doExecute re s with
  | Some (_, _, c) => c
  | None => []
  end.

(** The loop of [allMatches].  [cur] is [s[pos:]]; positions are compared
    through the length of what is left of [s].  An empty match at [pos]
    is dropped when it touches the previous match, and the search moves
    on by one character. *)
Fixpoint allMatches (fuel : nat) (re : regex) (cur : string)
    (prevMatchEnd : option nat) : list (list string) :=
  match fuel with
  | 0 => []
  | S fuel' =>
      match doExecute re cur with
      | None => []
      | Some (start, rest, c) =>
          if String.length rest =? String.length cur then
            let out :=
              if decide (prevMatchEnd = Some (String.length start))
              then [] else [c] in
            match cur with
            | String _ cur' =>
                out ++ allMatches fuel' re cur' (Some (String.length rest))
            | EmptyString => out
            end
          else c :: allMatches fuel' re rest (Some (String.length rest))
      end
  end.

(** [re.FindAllStringSubmatch(s, -1)].  Every turn of the loop moves on
    by at least one character or ends it, so [len(s) + 1] turns are
    enough. *)
Definition FindAllStringSubmatch (re : regex) (s : string)
  : list (list string) :=
  allMatches (S (String.length s)) re s None.

End Regexp.

(** ** The package *)

Import Regexp.

Definition defaultEndpoint : string := "https://oshi.at".

Definition expire : string := "expire".
Definition autodestroy : string := "autodestroy".
Definition randomizefn : string := "randomizefn".
Definition filename : string := "filename".
Definition shorturl : string := "shorturl".

Definition onion : string := "onion".
Definition hashsum : string := "hashsum".

Definition hashsumMatches : nat := 3.

(** [(https?://[^\s]+)\s+\[([^\]]+)\]] *)
Definition uploadResponseRegex : regex :=
  Concat
    (Capture 1
       (Concat (Lits "h" "ttp")
          (Concat (Quest (Lit "s"))
             (Concat (Lits ":" "//") (Plus (Charset true [PerlSpace]))))))
    (Concat (Plus (Charset false [PerlSpace]))
       (Concat (Lit "[")
          (Concat (Capture 2 (Plus (Charset true [One "]"]))) (Lit "]")))).

(** [([0-9a-zA-Z]+)\s+\(([^\]]+)\)] *)
Definition hashsumResponseRegex : regex :=
  Concat
    (Capture 1
       (Plus (Charset false [Range "0" "9"; Range "a" "z"; Range "A" "Z"])))
    (Concat (Plus (Charset false [PerlSpace]))
       (Concat (Lit "(")
          (Concat (Capture 2 (Plus (Charset true [One "]"]))) (Lit ")")))).

(** *** Errors *)

Record Error := { StatusCode : Z; Message : string }.

#[global] Instance Error_eq_dec : EqDecision Error.
Proof. solve_decision. Defined.

(** The values of the interface [error] this package returns. *)
Inductive error :=
| errorString (s : string)               (* errors.New(s), and library errors *)
| ptrError (e : Error)                   (* &Error{...} *)
| wrapError (msg : string) (err : error). (* fmt.Errorf with one %w *)

#[global] Instance error_eq_dec : EqDecision error.
Proof. solve_decision. Defined.

Definition ErrWrongResponse : error := errorString "wrong response".

(** [%d] *)
Definition FormatInt (z : Z) : string := NilZero.string_of_int (Z.to_int z).

(** [strconv.FormatUint(n, 10)] *)
Definition FormatUint (n : N) : string := NilZero.string_of_uint (N.to_uint n).

(** The method [Error() string]. *)
Definition Error_Error (e : Error) : string :=
  "Status " +:+ FormatInt (StatusCode e) +:+ ": " +:+ Message e.

Definition error_Error (err : error) : string :=
  match err with
  | errorString s => s
  | ptrError e => Error_Error e
  | wrapError msg _ => msg
  end.

(** [fmt.Errorf("%w", err)] *)
Definition Errorf_w (err : error) : error := wrapError (error_Error err) err.

(** [fmt.Errorf("%w: %s", err, s)] *)
Definition Errorf_w_s (err : error) (s : string) : error :=
  wrapError (error_Error err +:+ ": " +:+ s) err.

(** [errors.Is(err, target)] *)
Fixpoint errors_Is (err target : error) : bool :=
  bool_decide (err = target)
  || match err with
     | wrapError _ inner => errors_Is inner target
     | _ => false
     end.

(** What a call into [net/url], [net/http] or [io] returns. *)
Inductive result (A : Type) :=
| Ok (a : A)
| Fail (err : error).
Arguments Ok {A} a.
Arguments Fail {A} err.

(** *** Data *)

Module Image.
Record Image := {
  file : string;
  filename : string;
  expire : N;              (* uint64 *)
  autodestroy : bool;
  randomizefn : bool;
  shorturl : bool;
}.
End Image.
Abbreviation Image := Image.Image.

Definition NewImage (file : string) (filename : string) (expire : N)
    (autodestroy randomizefn shorturl : bool) : Image :=
  {| Image.file := file;
     Image.filename := filename;
     Image.expire := expire;
     Image.autodestroy := autodestroy;
     Image.randomizefn := randomizefn;
     Image.shorturl := shorturl |}.

Record UploadResponse := {
  Admin : string;
  Download : string;
  TorDownload : string;
}.

Record GetHashsumResponse := {
  Algorithm : string;
  Hashsum : string;
}.

(** [net/http] *)
Module http.
Definition MethodGet : string := "GET".
Definition MethodPut : string := "PUT".
Definition MethodDelete : string := "DELETE".
Definition StatusOK : Z := 200.

Record Request (Context : Type) := {
  ctx : Context;
  Method : string;
  URL : string;
  Body : option string;
}.

(** A response; [Body] is what [io.ReadAll(resp.Body)] gives. *)
Record Response := {
  StatusCode : Z;
  ReadAll_Body : result string;
}.

(** The method [Do] of the HTTP client. *)
Definition Client (Context : Type) : Type :=
  Request Context -> result Response.
End http.

(** [net/url] *)
Module url.
(** [url.Values] *)
Abbreviation Values := (gmap string (list string)).

Definition Set_ (v : Values) (key value : string) : Values :=
  <[key := [value]]> v.

(** A parsed URL: its raw query and the rest of it. *)
Record URL (Rest : Type) := {
  rest : Rest;
  RawQuery : string;
}.
End url.

(** [strings] *)
Module strings.
Definition isASCII (s : string) : bool :=
  Str.all (fun a => (N_of_ascii a <? 128)%N) s.

Definition isUpper (a : ascii) : bool :=
  (N_of_ascii "A" <=? N_of_ascii a)%N && (N_of_ascii a <=? N_of_ascii "Z")%N.

(** [c += 'a' - 'A'] for an upper-case ASCII letter. *)
Definition lowerByte (a : ascii) : ascii :=
  if isUpper a then ascii_of_N (N_of_ascii a + 32) else a.

Fixpoint mapBytes (f : ascii -> ascii) (s : string) : string :=
  match s with
  | EmptyString => EmptyString
  | String a s' => String (f a) (mapBytes f s')
  end.

(** [strings.ToLower]: ASCII-only text is lower-cased byte by byte; any
    other text goes through [strings.Map(unicode.ToLower, s)], whose
    case table is not part of this package and is taken as [unicode]. *)
Definition ToLower (unicode : string -> string) (s : string) : string :=
  if isASCII s then mapBytes lowerByte s else unicode s.
End strings.

(** What the package takes from the standard library, as it finds it. *)
Class Runtime := {
  context_Context : Type;
  (** what a parsed URL holds besides its raw query *)
  URLRest : Type;
  (** [strings.Map(unicode.ToLower, s)] *)
  Map_unicode_ToLower : string -> string;
  url_JoinPath : string -> list string -> result string;
  url_Parse : string -> result (url.URL URLRest);
  (** [u.Query()] parses [u.RawQuery] and drops what is malformed. *)
  URL_Query : url.URL URLRest -> url.Values;
  Values_Encode : url.Values -> string;
  URL_String : url.URL URLRest -> string;
  http_NewRequestWithContext :
    context_Context -> string -> string -> option string ->
    result (http.Request context_Context);
}.

(** Client is an oshi.at api client. *)
Record Client {RT : Runtime} := {
  endpoint : string;
  httpClient : http.Client context_Context;
}.

(** Code that runs against a [*Client]: it may read and write the
    client it points to. *)
Definition M {RT : Runtime} (A : Type) : Type := Client -> A * Client.

Definition ret {RT : Runtime} {A} (a : A) : M A := fun c => (a, c).

Definition bind {RT : Runtime} {A B} (m : M A) (f : A -> M B) : M B :=
  fun c => let '(a, c') := m c in f a c'.

(** Reading a field of the client. *)
Definition gets {RT : Runtime} {A} (field : Client -> A) : M A :=
  fun c => (field c, c).

(** Assigning to the client. *)
Definition modify {RT : Runtime} (f : Client -> Client) : M unit :=
  fun c => (tt, f c).

Notation "x <- m ;; k" := (bind m (fun x => k))
  (at level 20, m at level 99, k at level 200, only parsing).
Notation "' p <- m ;; k" := (bind m (fun x => let 'p := x in k))
  (at level 20, p pattern, m at level 99, k at level 200, only parsing).

(** [v, err := call; if err != nil { return zero, fmt.Errorf("%w", err) }] *)
Notation "'try' x <- call 'or' zero ;; k" :=
  (match call with
   | Fail err => ret (zero, Some (Errorf_w err))
   | Ok x => k
   end)
  (at level 20, x name, call at level 99, zero at level 9,
   k at level 200, only parsing).

(** Option helps to confgurate oshi client. *)
Definition Option {RT : Runtime} : Type := M unit.

(** WithEndpoint sets new custom endpoint to oshi client. *)
Definition WithEndpoint {RT : Runtime} (endpoint' : string) : Option :=
  modify (fun client =>
    {| endpoint := endpoint'; httpClient := httpClient client |}).

(** NewClient create a new oshi.at api client. *)
Definition NewClient {RT : Runtime} (httpClient : http.Client context_Context)
    (opts : list Option) : Client :=
  let client := {| endpoint := defaultEndpoint; httpClient := httpClient |} in
  fold_left (fun client o => snd (o client)) opts client.

Definition parseHashsumResponse (body : string)
  : GetHashsumResponse * option error :=
  let matches := FindStringSubmatch hashsumResponseRegex body in
  if length matches <? hashsumMatches then
    ({| Algorithm := ""; Hashsum := "" |},
     Some (Errorf_w_s ErrWrongResponse body))
  else
    ({| Algorithm := matches !!! 2; Hashsum := matches !!! 1 |}, None).

Definition parseUploadResponse {RT : Runtime} (body : string)
  : UploadResponse :=
  let matches := FindAllStringSubmatch uploadResponseRegex body in
  let response := {| Admin := ""; Download := ""; TorDownload := "" |} in
  fold_left
    (fun response match_ =>
       let url := match_ !!! 1 in
       let label := strings.ToLower Map_unicode_ToLower (match_ !!! 2) in
       if decide (label = "admin") then
         {| Admin := url;
            Download := Download response;
            TorDownload := TorDownload response |}
       else if decide (label = "download") then
         {| Admin := Admin response;
            Download := url;
            TorDownload := TorDownload response |}
       else if decide (label = "tor download") then
         {| Admin := Admin response;
            Download := Download response;
            TorDownload := url |}
       else response)
    matches response.

Definition prepareUploadURL {RT : Runtime} (img : Image)
  : M (string * option error) :=
  c_endpoint <- gets endpoint;;
  try url <- url_Parse c_endpoint or "" ;;
  let query := URL_Query url in
  let query :=
    if decide (Image.filename img ≠ filename)
    then url.Set_ query filename (Image.filename img) else query in
  let query :=
    if decide (0 < Image.expire img)%N
    then url.Set_ query expire (FormatUint (Image.expire img)) else query in
  let query :=
    if Image.autodestroy img then url.Set_ query autodestroy "1" else query in
  let query :=
    if Image.randomizefn img then url.Set_ query randomizefn "1" else query in
  let query :=
    if Image.shorturl img then url.Set_ query shorturl "1" else query in
  let url :=
    {| url.rest := url.rest _ url; url.RawQuery := Values_Encode query |} in
  ret (URL_String url, None).

(** GetTorEndpoint gets tor endpoint. *)
Definition GetTorEndpoint {RT : Runtime} (ctx : context_Context)
  : M (string * option error) :=
  c_endpoint <- gets endpoint;;
  try u <- url_JoinPath c_endpoint [onion] or "" ;;
  try req <- http_NewRequestWithContext ctx http.MethodGet u None or "" ;;
  c_httpClient <- gets httpClient;;
  try resp <- c_httpClient req or "" ;;
  try body <- http.ReadAll_Body resp or "" ;;
  if decide (http.StatusCode resp ≠ http.StatusOK) then
    ret ("", Some (ptrError {| StatusCode := http.StatusCode resp;
                               Message := body |}))
  else ret (body, None).

(** GetHashsum gets file hashsum and algorithm. *)
Definition GetHashsum {RT : Runtime} (ctx : context_Context) (file : string)
  : M (GetHashsumResponse * option error) :=
  let zero := {| Algorithm := ""; Hashsum := "" |} in
  c_endpoint <- gets endpoint;;
  try u <- url_JoinPath c_endpoint [hashsum; file] or zero ;;
  try req <- http_NewRequestWithContext ctx http.MethodGet u None or zero ;;
  c_httpClient <- gets httpClient;;
  try resp <- c_httpClient req or zero ;;
  try body <- http.ReadAll_Body resp or zero ;;
  if decide (http.StatusCode resp ≠ http.StatusOK) then
    ret (zero, Some (ptrError {| StatusCode := http.StatusCode resp;
                                 Message := body |}))
  else ret (parseHashsumResponse body).

(** Delete delete file. *)
Definition Delete {RT : Runtime} (ctx : context_Context) (adminURL : string)
  : M (option error) :=
  match http_NewRequestWithContext ctx http.MethodDelete adminURL None with
  | Fail err => ret (Some (Errorf_w err))
  | Ok req =>
      c_httpClient <- gets httpClient;;
      match c_httpClient req with
      | Fail err => ret (Some (Errorf_w err))
      | Ok resp =>
          if decide (http.StatusCode resp ≠ http.StatusOK) then
            match http.ReadAll_Body resp with
            | Fail err => ret (Some (Errorf_w err))
            | Ok body =>
                ret (Some (ptrError {| StatusCode := http.StatusCode resp;
                                       Message := body |}))
            end
          else ret None
      end
  end.

(** Upload uploads file. *)
Definition Upload {RT : Runtime} (ctx : context_Context) (img : Image)
  : M (UploadResponse * option error) :=
  let zero := {| Admin := ""; Download := ""; TorDownload := "" |} in
  '(url, err) <- prepareUploadURL img;;
  match err with
  | Some err => ret (zero, Some (Errorf_w err))
  | None =>
      try req <- http_NewRequestWithContext ctx http.MethodPut url
                   (Some (Image.file img)) or zero ;;
      c_httpClient <- gets httpClient;;
      try resp <- c_httpClient req or zero ;;
      try body <- http.ReadAll_Body resp or zero ;;
      if decide (http.StatusCode resp ≠ http.StatusOK) then
        ret (zero, Some (ptrError {| StatusCode := http.StatusCode resp;
                                     Message := body |}))
      else ret (parseUploadResponse body, None)
  end.

(** A use of the client: one of its four operations with its arguments. *)
Inductive call {RT : Runtime} :=
| callUpload (ctx : context_Context) (img : Image)
| callGetHashsum (ctx : context_Context) (file : string)
| callDelete (ctx : context_Context) (adminURL : string)
| callGetTorEndpoint (ctx : context_Context).

Inductive returned :=
| fromUpload (r : UploadResponse * option error)
| fromGetHashsum (r : GetHashsumResponse * option error)
| fromDelete (r : option error)
| fromGetTorEndpoint (r : string * option error).

Definition perform {RT : Runtime} (op : call) : M returned :=
  match op with
  | callUpload ctx img => r <- Upload ctx img;; ret (fromUpload r)
  | callGetHashsum ctx file => r <- GetHashsum ctx file;; ret (fromGetHashsum r)
  | callDelete ctx adminURL => r <- Delete ctx adminURL;; ret (fromDelete r)
  | callGetTorEndpoint ctx =>
      r <- GetTorEndpoint ctx;; ret (fromGetTorEndpoint r)
  end.

(** The calls of [ops] one after the other on the same client; with each
    result, the client the call started from. *)
Fixpoint performAll {RT : Runtime} (ops : list call)
  : M (list (Client * returned)) :=
  match ops with
  | [] => ret []
  | op :: ops' =>
      before <- gets (fun c => c);;
      r <- perform op;;
      rs <- performAll ops';;
      ret ((before, r) :: rs)
  end.

(** ** Vocabulary of the statements *)

(** Text made of [\s] characters only. *)
Definition blank (s : string) : bool := Str.all perl_space s.

(** Text with no [\s] character. *)
Definition spaceless (s : string) : bool :=
  Str.all (fun a => negb (perl_space a)) s.

Definition nonempty (s : string) : bool :=
  match s with
  | EmptyString => false
  | String _ _ => true
  end.

(** [strip p u] is [Some t] when [u] is [p] followed by [t]. *)
Fixpoint strip (p u : string) : option string :=
  match p with
  | EmptyString => Some u
  | String a p' =>
      match u with
      | String b u' => if Ascii.eqb a b then strip p' u' else None
      | EmptyString => None
      end
  end.

(** [http://] or [https://] followed by at least one character, none of
    them white space. *)
Definition httpURL (u : string) : bool :=
  match strip "http://" u, strip "https://" u with
  | Some tok, _ | None, Some tok => nonempty tok && spaceless tok
  | None, None => false
  end.

(** The same character up to the case of an ASCII letter. *)
Definition recasedByte (a b : ascii) : bool :=
  Ascii.eqb a b
  || (strings.isUpper a && Ascii.eqb (ascii_of_N (N_of_ascii a + 32)) b)
  || (strings.isUpper b && Ascii.eqb (ascii_of_N (N_of_ascii b + 32)) a).

(** [s] is [t] in some letter-casing. *)
Fixpoint recased (s t : string) : bool :=
  match s, t with
  | EmptyString, EmptyString => true
  | String a s', String b t' => recasedByte a b && recased s' t'
  | _, _ => false
  end.

(** A line of an upload response and the white space after it. *)
Record Line := {
  l_url : string;
  l_sep : string;
  l_label : string;
  l_pad : string;
}.

(** [<url><sep>[<label>]<pad>] *)
Definition render (l : Line) : string :=
  l_url l +:+ l_sep l +:+ "[" +:+ l_label l +:+ "]" +:+ l_pad l.

Fixpoint renderAll (ls : list Line) : string :=
  match ls with
  | [] => ""
  | l :: ls' => render l +:+ renderAll ls'
  end.

(** A line the pattern is written for: a URL, white space, a label with at
    least one character and no closing bracket, and only white space
    after it. *)
Definition wellFormed (l : Line) : bool :=
  httpURL (l_url l)
  && nonempty (l_sep l) && blank (l_sep l)
  && nonempty (l_label l)
  && Str.all (fun a => negb (Ascii.eqb a "]")) (l_label l)
  && blank (l_pad l).

(** The line [url [label]], with any white space between the two and after
    them, and the label in any letter-casing. *)
Definition lineOf (url label : string) (l : Line) : bool :=
  String.eqb (l_url l) url
  && recased (l_label l) label
  && nonempty (l_sep l) && blank (l_sep l)
  && blank (l_pad l).

(** The labels [parseUploadResponse] knows. *)
Definition recognized {RT : Runtime} (label : string) : bool :=
  let label := strings.ToLower Map_unicode_ToLower label in
  bool_decide (label = "admin") || bool_decide (label = "download")
  || bool_decide (label = "tor download").

(** The URL of the last match of [matches] whose lower-cased label is
    [label]. *)
Fixpoint lastLabelled {RT : Runtime} (label : string)
    (matches : list (list string)) : option string :=
  match matches with
  | [] => None
  | m :: matches' =>
      match lastLabelled label matches' with
      | Some url => Some url
      | None =>
          if decide (strings.ToLower Map_unicode_ToLower (m !!! 2) = label)
          then Some (m !!! 1) else None
      end
  end.

(** A pattern every match of which takes at least one character. *)
Fixpoint consumes (r : regex) : bool :=
  match r with
  | Char _ | Plus _ => true
  | Concat r1 r2 => consumes r1 || consumes r2
  | Quest _ => false
  | Capture _ r1 => consumes r1
  end.

(** [0-9a-zA-Z] *)
Definition alnum (a : ascii) : bool :=
  charset_has (Charset false [Range "0" "9"; Range "a" "z"; Range "A" "Z"]) a.

(** Where a greedy [x+] over [cs] has to stop: at the end of the text or
    in front of a character outside [cs]. *)
Definition stops (cs : charset) (s : string) : Prop :=
  match s with
  | EmptyString => True
  | String a _ => charset_has cs a = false
  end.

(** Text in which no match of the upload pattern can start: it has no
    [h]. *)
Definition inert (p : string) : bool :=
  Str.all (fun a => negb (Ascii.eqb a "h")) p.

(** What [FindAllStringSubmatch] returns for a line. *)
Definition matchOf (l : Line) : list string :=
  [l_url l +:+ l_sep l +:+ "[" +:+ l_label l +:+ "]"; l_url l; l_label l].

(** [s'] is what is left of [s] after some of it has been read. *)
Definition suffixOf (s' s : string) : Prop := exists p, s = p +:+ s'.

(** A body the upload pattern cannot match in: it has no [h], or it has
    no [[]. *)
Definition shapeless (body : string) : bool :=
  inert body || Str.all (fun a => negb (Ascii.eqb a "[")) body.

(** [url<sep>[<label>]], a response of one line. *)
Definition oneLine (url sep label : string) : string :=
  url +:+ sep +:+ "[" +:+ label +:+ "]".

(** Code that leaves the client it runs against as it found it. *)
Definition readOnly {RT : Runtime} {A} (m : M A) : Prop :=
  forall c, snd (m c) = c.

(** The error of a response whose status is not 200. *)
Definition statusError (resp : http.Response) (body : string) : error :=
  ptrError {| StatusCode := http.StatusCode resp; Message := body |}.

(** Inputs to run the statements on. *)
Definition exampleImage : Image :=
  NewImage "data" "name_test" 5 true false false.

Definition exampleResponse (status : Z) (body : string) : http.Response :=
  {| http.StatusCode := status; http.ReadAll_Body := Ok body |}.

Definition adminLine : Line :=
  {| l_url := "http://a/1"; l_sep := " "; l_label := "ADMIN";
     l_pad := String "010" "" |}.

Definition downloadLine : Line :=
  {| l_url := "http://a/2"; l_sep := String "009" " "; l_label := "download";
     l_pad := String "013" (String "010" "") |}.

Definition torLine : Line :=
  {| l_url := "http://a/3"; l_sep := " "; l_label := "Tor Download";
     l_pad := "" |}.

Definition otherLine : Line :=
  {| l_url := "https://a/4"; l_sep := " "; l_label := "Short";
     l_pad := " " |}.

(** The two parsers with their index expressions as Go evaluates them:
    [match[1]], [match[2]], [matches[2]] and [matches[1]] panic when the
    index is out of range, and [None] stands for that panic. *)
Definition parseHashsumResponse_indexed (body : string)
  : option (GetHashsumResponse * option error) :=
  let matches := FindStringSubmatch hashsumResponseRegex body in
  if length matches <? hashsumMatches then
    Some ({| Algorithm := ""; Hashsum := "" |},
          Some (Errorf_w_s ErrWrongResponse body))
  else
    match matches !! 2 with
    | None => None
    | Some algorithm =>
        match matches !! 1 with
        | None => None
        | Some hash =>
            Some ({| Algorithm := algorithm; Hashsum := hash |}, None)
        end
    end.

Definition parseUploadResponse_indexed {RT : Runtime} (body : string)
  : option UploadResponse :=
  let matches := FindAllStringSubmatch uploadResponseRegex body in
  let response := {| Admin := ""; Download := ""; TorDownload := "" |} in
  fold_left
    (fun running match_ =>
       match running with
       | None => None
       | Some response =>
           match match_ !! 1 with
           | None => None
           | Some url =>
               match match_ !! 2 with
               | None => None
               | Some text =>
                   let label := strings.ToLower Map_unicode_ToLower text in
                   Some
                     (if decide (label = "admin") then
                        {| Admin := url;
                           Download := Download response;
                           TorDownload := TorDownload response |}
                      else if decide (label = "download") then
                        {| Admin := Admin response;
                           Download := url;
                           TorDownload := TorDownload response |}
                      else if decide (label = "tor download") then
                        {| Admin := Admin response;
                           Download := Download response;
                           TorDownload := url |}
                      else response)
               end
           end
       end)
    matches (Some response).

(** [body] holds [url], white space and [[label]] one after the other. *)
Definition labelledIn (body url label : string) : Prop :=
  exists pre sep rest,
    body = pre +:+ url +:+ sep +:+ "[" +:+ label +:+ "]" +:+ rest
    /\ nonempty sep = true /\ blank sep = true.

(** [err] is [fmt.Errorf("%w", cause)]: it wraps [cause], reads the same,
    and is not a status error of its own. *)
Definition wraps (err cause : error) : Prop :=
  err = Errorf_w cause
  /\ errors_Is err cause = true
  /\ error_Error err = error_Error cause
  /\ forall e, err <> ptrError e.

(** [r2] laid over [r1]: the fields [r2] has, and those of [r1] where
    [r2] has none. *)
Definition overlay (r1 r2 : UploadResponse) : UploadResponse :=
  {| Admin := if nonempty (Admin r2) then Admin r2 else Admin r1;
     Download := if nonempty (Download r2) then Download r2 else Download r1;
     TorDownload :=
       if nonempty (TorDownload r2) then TorDownload r2
       else TorDownload r1 |}.

(** [strings.Count(s, sep)] for a separator of one character. *)
Fixpoint strings_Count (s : string) (sep : ascii) : nat :=
  match s with
  | EmptyString => 0
  | String a s' =>
      if Ascii.eqb a sep then S (strings_Count s' sep)
      else strings_Count s' sep
  end.

(** [strings.Split(s, sep)] for a separator of one character: the texts
    between its occurrences, one more than there are occurrences. *)
Fixpoint strings_Split (s : string) (sep : ascii) : list string :=
  match s with
  | EmptyString => [EmptyString]
  | String a s' =>
      if Ascii.eqb a sep then EmptyString :: strings_Split s' sep
      else match strings_Split s' sep with
           | part :: parts => String a part :: parts
           | [] => [String a EmptyString]
           end
  end.

(** [strings.Split(resp.Download, "/")[3]], as the tests take the file
    identifier from a download URL; [None] where Go panics. *)
Definition fileID (download : string) : option string :=
  strings_Split download "/" !! 3.

(** A stand-in for the standard library to run the package on concrete
    inputs: contexts carry nothing, URLs are kept as text and have no
    query of their own, every request can be built. *)
Definition stubRuntime : Runtime := {|
  context_Context := unit;
  URLRest := string;
  Map_unicode_ToLower := fun s => s;
  url_JoinPath := fun base elem =>
    Ok (fold_left (fun acc e => acc +:+ "/" +:+ e) elem base);
  url_Parse := fun s => Ok {| url.rest := s; url.RawQuery := "" |};
  URL_Query := fun _ => ∅;
  Values_Encode := fun v =>
    String.concat "&"
      (map (fun kv => fst kv +:+ "=" +:+ String.concat "," (snd kv))
         (map_to_list v));
  URL_String := fun u => url.rest _ u +:+ "?" +:+ url.RawQuery _ u;
  http_NewRequestWithContext := fun ctx method u body =>
    Ok {| http.ctx := ctx; http.Method := method; http.URL := u;
          http.Body := body |};
|}.

(** A transport that answers every request with the same response. *)
Definition stubClient (status : Z) (body : string)
  : @Client stubRuntime :=
  {| endpoint := defaultEndpoint;
     httpClient := fun _ =>
       Ok {| http.StatusCode := status; http.ReadAll_Body := Ok body |} |}.

(** A standard library that refuses what the real one refuses: a nil
    context ([None]), an address with white space in it and, when [urls]
    is [false], every URL. *)
Definition faultyRuntime (urls : bool) : Runtime := {|
  context_Context := option unit;
  URLRest := string;
  Map_unicode_ToLower := fun s => s;
  url_JoinPath := fun base elem =>
    if urls then @url_JoinPath stubRuntime base elem
    else Fail (errorString "invalid URL escape");
  url_Parse := fun s =>
    if urls then @url_Parse stubRuntime s
    else Fail (errorString "invalid URL escape");
  URL_Query := @URL_Query stubRuntime;
  Values_Encode := @Values_Encode stubRuntime;
  URL_String := @URL_String stubRuntime;
  http_NewRequestWithContext := fun ctx method u body =>
    match ctx with
    | None => Fail (errorString "net/http: nil Context")
    | Some _ =>
        if spaceless u then
          Ok {| http.ctx := ctx; http.Method := method; http.URL := u;
                http.Body := body |}
        else Fail (errorString "invalid character in host name")
    end;
|}.

(** A transport that gives every request the same answer. *)
Definition constClient {RT : Runtime} (answer : result http.Response)
  : Client :=
  {| endpoint := defaultEndpoint; httpClient := fun _ => answer |}.

(** A transport that gives the requests of one method an answer and all
    other requests another. *)
Definition methodClient (method : string)
    (answer other : result http.Response) : @Client stubRuntime :=
  {| endpoint := defaultEndpoint;
     httpClient := fun req =>
       if decide (http.Method _ req = method) then answer else other |}.

(** * Facts *)

Section Facts.
Context {RT : Runtime}.

Local Abbreviation lower := (strings.ToLower Map_unicode_ToLower).
Local Abbreviation notSpace := (Charset true [PerlSpace]).
Local Abbreviation isSpace := (Charset false [PerlSpace]).
Local Abbreviation notBracket := (Charset true [One "]"]).

(** ** Strings *)

Lemma Str_app_nil_r (s : string) : s +:+ "" = s.
Proof. induction s as [|a s IH]; cbn; congruence. Qed.

Lemma Str_app_assoc (s t u : string) : (s +:+ t) +:+ u = s +:+ t +:+ u.
Proof. induction s as [|a s IH]; cbn; congruence. Qed.

Lemma Str_length_app (s t : string) :
  String.length (s +:+ t) = String.length s + String.length t.
Proof. induction s as [|a s IH]; cbn; congruence. Qed.

Lemma Str_take_0 (s : string) : Str.take 0 s = "".
Proof. by destruct s. Qed.

Lemma Str_take_app_length (s t : string) :
  Str.take (String.length s) (s +:+ t) = s.
Proof.
  induction s as [|a s IH]; simpl; [apply Str_take_0 |].
  unfold Str.take in *; simpl. by rewrite IH.
Qed.

(** The text consumed between a suffix [s +:+ t] and its own suffix [t]. *)
Lemma Str_take_consumed (s t : string) :
  Str.take (String.length (s +:+ t) - String.length t) (s +:+ t) = s.
Proof.
  rewrite Str_length_app.
  replace (String.length s + String.length t - String.length t)
    with (String.length s) by lia.
  apply Str_take_app_length.
Qed.

Lemma Str_all_app (p : ascii -> bool) (s t : string) :
  Str.all p (s +:+ t) = Str.all p s && Str.all p t.
Proof.
  induction s as [|a s IH]; simpl; [done |].
  rewrite IH. by rewrite andb_assoc.
Qed.

(** ** The matcher: what makes a run succeed *)

Lemma charset_has_One a b :
  charset_has (Charset false [One a]) b = Ascii.eqb b a.
Proof. unfold charset_has; simpl. by rewrite orb_false_r. Qed.

Lemma run_Lit {R} a s c (k : string -> caps -> option R) :
  run (Lit a) (String a s) c k = k s c.
Proof. simpl. by rewrite charset_has_One, Ascii.eqb_refl. Qed.

Lemma run_Lit_ne {R} a b s c (k : string -> caps -> option R) :
  a <> b -> run (Lit a) (String b s) c k = None.
Proof.
  intros Hab. simpl. rewrite charset_has_One.
  destruct (Ascii.eqb_spec b a); [congruence | done].
Qed.

Lemma run_Concat {R} r1 r2 s c (k : string -> caps -> option R) :
  run (Concat r1 r2) s c k = run r1 s c (fun s1 c1 => run r2 s1 c1 k).
Proof. done. Qed.

Lemma run_Capture {R} i r s c (k : string -> caps -> option R) :
  run (Capture i r) s c k
  = run r s c (fun s1 c1 =>
      k s1 (<[i := Str.take (String.length s - String.length s1) s]> c1)).
Proof. done. Qed.

Lemma star_greedy {R} cs t s (k : string -> option R) x :
  Str.all (charset_has cs) t = true -> stops cs s -> k s = Some x ->
  star cs (t +:+ s) k = Some x.
Proof.
  intros Ht Hs Hk. induction t as [|a t IH]; simpl in *.
  - destruct s as [|b s]; simpl in *; [done |]. by rewrite Hs.
  - apply andb_prop in Ht as [-> Ht]. by rewrite IH.
Qed.

Lemma run_Plus_greedy {R} cs t s c (k : string -> caps -> option R) x :
  nonempty t = true -> Str.all (charset_has cs) t = true -> stops cs s ->
  k s c = Some x ->
  run (Plus cs) (t +:+ s) c k = Some x.
Proof.
  intros Hne Ht Hs Hk. destruct t as [|a t]; [done |]. simpl in *.
  apply andb_prop in Ht as [-> Ht].
  by apply (star_greedy cs t s (fun s1 => k s1 c)).
Qed.

(** ** The matcher: what a successful run implies *)

Lemma suffixOf_refl s : suffixOf s s.
Proof. by exists "". Qed.

Lemma suffixOf_trans s1 s2 s3 :
  suffixOf s1 s2 -> suffixOf s2 s3 -> suffixOf s1 s3.
Proof.
  intros [p ->] [q ->]. exists (q +:+ p). by rewrite Str_app_assoc.
Qed.

Lemma suffixOf_tail a s : suffixOf s (String a s).
Proof. by exists (String a ""). Qed.

Lemma suffixOf_all p s' s :
  suffixOf s' s -> Str.all p s = true -> Str.all p s' = true.
Proof.
  intros [q ->]. rewrite Str_all_app. by intros [_ ?]%andb_prop.
Qed.

Lemma suffixOf_lacks p s' s :
  suffixOf s' s -> Str.all p s' = false -> Str.all p s = false.
Proof.
  intros Hs H. destruct (Str.all p s) eqn:E; [| done].
  by rewrite (suffixOf_all p s' s) in H.
Qed.

Lemma suffixOf_length s' s :
  suffixOf s' s -> String.length s' <= String.length s.
Proof. intros [p ->]. rewrite Str_length_app. lia. Qed.

Lemma star_inv {R} cs s (k : string -> option R) x :
  star cs s k = Some x -> exists s', suffixOf s' s /\ k s' = Some x.
Proof.
  induction s as [|a s IH]; simpl.
  - intros H. exists "". split; [apply suffixOf_refl | done].
  - destruct (charset_has cs a).
    + destruct (star cs s k) as [y|] eqn:E.
      * intros [= ->]. destruct IH as (s' & ? & ?); [done |].
        exists s'. split; [| done].
        eapply suffixOf_trans; [done | apply suffixOf_tail].
      * intros H. exists (String a s). split; [apply suffixOf_refl | done].
    + intros H. exists (String a s). split; [apply suffixOf_refl | done].
Qed.

(** A successful run reaches its continuation, on some suffix of the
    text and with as many registers as it started with. *)
Lemma run_inv {R} r : forall s c (k : string -> caps -> option R) x,
  run r s c k = Some x ->
  exists s' c', suffixOf s' s /\ length c' = length c /\ k s' c' = Some x.
Proof.
  induction r as [cs | r1 IH1 r2 IH2 | r1 IH1 | cs | i r1 IH1];
    intros s c k x H; cbn [run] in H.
  - destruct s as [|a s]; [done |]. destruct (charset_has cs a); [| done].
    exists s, c. split; [apply suffixOf_tail | done].
  - apply IH1 in H as (s1 & c1 & Hs1 & Hc1 & H).
    apply IH2 in H as (s2 & c2 & Hs2 & Hc2 & H).
    exists s2, c2. split; [by eapply suffixOf_trans |].
    split; [congruence | done].
  - destruct (run r1 s c k) as [y|] eqn:E.
    + injection H as ->. by apply IH1.
    + exists s, c. split; [apply suffixOf_refl | done].
  - destruct s as [|a s]; [done |]. destruct (charset_has cs a); [| done].
    apply star_inv in H as (s' & Hs' & H). exists s', c.
    split; [| done]. eapply suffixOf_trans; [done | apply suffixOf_tail].
  - apply IH1 in H as (s1 & c1 & Hs1 & Hc1 & H). cbv beta in H.
    eexists s1, _. split; [done |]. split; [| exact H].
    by rewrite length_insert.
Qed.

(** A run that ends with a literal character needs that character in the
    text. *)
Lemma run_needs_Lit {R} a s c (k : string -> caps -> option R) x :
  run (Lit a) s c k = Some x ->
  Str.all (fun b => negb (Ascii.eqb b a)) s = false.
Proof.
  destruct s as [|b s]; [done |]. cbn [run Lit]. rewrite charset_has_One.
  simpl. by destruct (Ascii.eqb b a).
Qed.

(** A match has one register per group, and one for the whole match. *)
Lemma match_here_length re s rest c :
  match_here re s = Some (rest, c) ->
  suffixOf rest s /\ length c = S (NumSubexp re).
Proof.
  unfold match_here. intros (s' & c' & Hs' & Hc' & [= <- <-])%run_inv.
  split; [done |]. by rewrite length_insert, Hc', length_replicate.
Qed.

Lemma doExecute_length re s : forall start rest c,
  doExecute re s = Some (start, rest, c) -> length c = S (NumSubexp re).
Proof.
  induction s as [|a s IH]; intros start rest c; cbn [doExecute];
    destruct (match_here re _) as [[rest' c']|] eqn:E; try done.
  - intros [= <- <- <-]. by apply match_here_length in E as [_ ?].
  - intros [= <- <- <-]. by apply match_here_length in E as [_ ?].
  - apply IH.
Qed.

Lemma doExecute_suffix re s : forall start rest c,
  doExecute re s = Some (start, rest, c) ->
  suffixOf start s /\ suffixOf rest start.
Proof.
  induction s as [|a s IH]; intros start rest c; cbn [doExecute];
    destruct (match_here re _) as [[rest' c']|] eqn:E; try done.
  - intros [= <- <- <-]. apply match_here_length in E as [? _].
    split; [apply suffixOf_refl | done].
  - intros [= <- <- <-]. apply match_here_length in E as [? _].
    split; [apply suffixOf_refl | done].
  - intros H. apply IH in H as [? ?].
    split; [| done]. eapply suffixOf_trans; [done | apply suffixOf_tail].
Qed.

Lemma doExecute_None re s :
  (forall s', suffixOf s' s -> match_here re s' = None) ->
  doExecute re s = None.
Proof.
  induction s as [|a s IH]; intros H; cbn [doExecute];
    rewrite (H _ (suffixOf_refl _)); [done |].
  apply IH. intros s' Hs'. apply H.
  eapply suffixOf_trans; [done | apply suffixOf_tail].
Qed.

(** [FindStringSubmatch] returns [nil] or the whole match and every
    group. *)
Lemma FindStringSubmatch_length re s :
  FindStringSubmatch re s = []
  \/ length (FindStringSubmatch re s) = S (NumSubexp re).
Proof.
  unfold FindStringSubmatch.
  destruct (doExecute re s) as [[[start rest] c]|] eqn:E; [right | by left].
  by apply doExecute_length in E.
Qed.

(** ** The loop of [allMatches] ends by itself *)

(** Every turn of the loop ends it or goes on with a shorter text: with
    more turns allowed than the text has characters, the number of turns
    allowed makes no difference. *)
Lemma allMatches_fuel re fuel1 : forall fuel2 cur prev,
  String.length cur < fuel1 -> String.length cur < fuel2 ->
  allMatches fuel1 re cur prev = allMatches fuel2 re cur prev.
Proof.
  induction fuel1 as [|fuel1 IH]; intros fuel2 cur prev H1 H2; [lia |].
  destruct fuel2 as [|fuel2]; [lia |]. cbn [allMatches].
  destruct (doExecute re cur) as [[[start rest] c]|] eqn:E; [| done].
  apply doExecute_suffix in E as [Hstart%suffixOf_length Hrest%suffixOf_length].
  destruct (Nat.eqb_spec (String.length rest) (String.length cur)).
  - destruct cur as [|a cur]; [done |]. simpl in H1, H2.
    f_equal. apply IH; lia.
  - f_equal. apply IH; lia.
Qed.

Lemma FindAllStringSubmatch_fuel re s extra :
  FindAllStringSubmatch re s
  = allMatches (S (String.length s) + extra) re s None.
Proof. unfold FindAllStringSubmatch. apply allMatches_fuel; lia. Qed.

(** Every match delivered has the whole match and one text per group, so
    the indices 1 and 2 of a match of either pattern exist. *)
Lemma allMatches_length re fuel : forall cur prev,
  Forall (fun m => length m = S (NumSubexp re)) (allMatches fuel re cur prev).
Proof.
  induction fuel as [|fuel IH]; intros cur prev; [by constructor |].
  cbn [allMatches].
  destruct (doExecute re cur) as [[[start rest] c]|] eqn:E;
    [| by constructor].
  apply doExecute_length in E.
  destruct (String.length rest =? String.length cur).
  - destruct cur as [|a cur]; case_decide;
      repeat first [done | apply Forall_app_2 | apply Forall_cons_2
                   | apply Forall_nil_2].
  - by apply Forall_cons_2.
Qed.

Lemma FindAllStringSubmatch_length re s :
  Forall (fun m => length m = S (NumSubexp re)) (FindAllStringSubmatch re s).
Proof. apply allMatches_length. Qed.

Lemma star_inv_length {R} cs s (k : string -> option R) x :
  star cs s k = Some x ->
  exists s', String.length s' <= String.length s /\ k s' = Some x.
Proof.
  intros (s' & Hs' & H)%star_inv. exists s'.
  split; [by apply suffixOf_length | done].
Qed.

(** A run of a pattern that takes at least one character reaches its
    continuation on a shorter text. *)
Lemma run_consumes {R} r : forall s c (k : string -> caps -> option R) x,
  consumes r = true -> run r s c k = Some x ->
  exists s' c', String.length s' < String.length s /\ k s' c' = Some x.
Proof.
  induction r as [cs | r1 IH1 r2 IH2 | r1 IH1 | cs | i r1 IH1];
    intros s c k x Hr H; cbn [run consumes] in *; try done.
  - destruct s as [|a s]; [done |]. destruct (charset_has cs a); [| done].
    exists s, c. simpl. split; [lia | done].
  - destruct (consumes r1) eqn:E1.
    + apply IH1 in H as (s1 & c1 & Hs1 & H); [| done].
      apply run_inv in H as (s2 & c2 & Hs2%suffixOf_length & _ & H).
      exists s2, c2. split; [lia | done].
    + apply run_inv in H as (s1 & c1 & Hs1%suffixOf_length & _ & H).
      apply IH2 in H as (s2 & c2 & Hs2 & H); [| done].
      exists s2, c2. split; [lia | done].
  - destruct s as [|a s]; [done |]. destruct (charset_has cs a); [| done].
    apply star_inv_length in H as (s' & Hs' & H). exists s', c.
    simpl. split; [lia | done].
  - apply IH1 in H as (s1 & c1 & Hs1 & H); [| done]. cbv beta in H.
    eexists s1, _. split; [done | exact H].
Qed.

Lemma doExecute_consumes re s : forall start rest c,
  consumes re = true -> doExecute re s = Some (start, rest, c) ->
  String.length rest < String.length s.
Proof.
  induction s as [|a s IH]; intros start rest c Hre; cbn [doExecute];
    destruct (match_here re _) as [[rest' c']|] eqn:E; try done.
  - intros [= <- <- <-]. unfold match_here in E.
    by apply run_consumes in E as (s' & c'' & ? & [= <- <-]).
  - intros [= <- <- <-]. unfold match_here in E.
    by apply run_consumes in E as (s' & c'' & ? & [= <- <-]).
  - intros H. apply IH in H; [simpl; lia | done].
Qed.

(** Neither pattern of the package matches the empty text, so the loop
    never meets an empty match: every turn delivers the leftmost match
    and goes on behind it. *)
Lemma allMatches_consumes re fuel cur prev :
  consumes re = true ->
  allMatches (S fuel) re cur prev
  = match doExecute re cur with
    | None => []
    | Some (_, rest, c) =>
        c :: allMatches fuel re rest (Some (String.length rest))
    end.
Proof.
  intros Hre. cbn [allMatches].
  destruct (doExecute re cur) as [[[start rest] c]|] eqn:E; [| done].
  apply doExecute_consumes in E; [| done].
  destruct (Nat.eqb_spec (String.length rest) (String.length cur)); [lia |].
  done.
Qed.

Lemma patterns_consume :
  consumes uploadResponseRegex = true /\ consumes hashsumResponseRegex = true.
Proof. done. Qed.

(** ** The upload pattern *)

Lemma strip_Some p u t : strip p u = Some t -> u = p +:+ t.
Proof.
  revert u. induction p as [|a p IH]; intros u H; simpl in *.
  - congruence.
  - destruct u as [|b u]; [done |].
    destruct (Ascii.eqb_spec a b) as [->|]; [| done].
    by rewrite (IH u H).
Qed.

Lemma httpURL_inv u :
  httpURL u = true ->
  exists tok, (u = "http://" +:+ tok \/ u = "https://" +:+ tok)
              /\ nonempty tok = true /\ spaceless tok = true.
Proof.
  unfold httpURL. intros H.
  destruct (strip "http://" u) as [tok|] eqn:E1.
  - apply strip_Some in E1. apply andb_prop in H as [? ?]. eauto 6.
  - destruct (strip "https://" u) as [tok|] eqn:E2; [| done].
    apply strip_Some in E2. apply andb_prop in H as [? ?]. eauto 6.
Qed.

Local Abbreviation urlPart :=
  (Concat (Lits "h" "ttp")
     (Concat (Quest (Lit "s")) (Concat (Lits ":" "//") (Plus notSpace)))).

Lemma spaceless_all tok :
  spaceless tok = true -> Str.all (charset_has notSpace) tok = true.
Proof.
  unfold spaceless. induction tok as [|a tok IH]; simpl; [done |].
  intros [Ha Ht]%andb_prop. rewrite IH by done.
  unfold charset_has; simpl. by destruct (perl_space a).
Qed.

Lemma run_urlPart {R} u s c (k : string -> caps -> option R) x :
  httpURL u = true -> stops notSpace s -> k s c = Some x ->
  run urlPart (u +:+ s) c k = Some x.
Proof.
  intros (tok & Hu & Hne & Htok)%httpURL_inv Hs Hk.
  apply spaceless_all in Htok.
  pose proof (run_Plus_greedy notSpace tok s c k x Hne Htok Hs Hk) as HP.
  destruct Hu as [-> | ->]; cbn in HP |- *; [exact HP | by rewrite HP].
Qed.

Lemma blank_all sep :
  blank sep = true -> Str.all (charset_has isSpace) sep = true.
Proof.
  unfold blank. induction sep as [|a sep IH]; simpl; [done |].
  intros [Ha Ht]%andb_prop. rewrite IH by done.
  unfold charset_has; simpl. by rewrite Ha.
Qed.

Lemma label_all lab :
  Str.all (fun a => negb (Ascii.eqb a "]")) lab = true ->
  Str.all (charset_has notBracket) lab = true.
Proof.
  induction lab as [|a lab IH]; simpl; [done |].
  intros [Ha Ht]%andb_prop. rewrite IH by done.
  unfold charset_has; simpl. by destruct (Ascii.eqb a "]").
Qed.

Lemma stops_blank sep s :
  nonempty sep = true -> blank sep = true -> stops notSpace (sep +:+ s).
Proof.
  destruct sep as [|a sep]; [done |]. simpl.
  intros _ [Ha _]%andb_prop. unfold charset_has; simpl. by rewrite Ha.
Qed.

Lemma stops_bracket s : stops notBracket (String "]" s).
Proof. done. Qed.

(** The pattern matches a well-formed line where it starts, and takes
    exactly the line. *)
Lemma match_here_line u sep lab s :
  httpURL u = true -> nonempty sep = true -> blank sep = true ->
  nonempty lab = true ->
  Str.all (fun a => negb (Ascii.eqb a "]")) lab = true ->
  match_here uploadResponseRegex (u +:+ sep +:+ "[" +:+ lab +:+ "]" +:+ s)
  = Some (s, [u +:+ sep +:+ "[" +:+ lab +:+ "]"; u; lab]).
Proof.
  intros Hu Hsep1 Hsep2 Hlab1 Hlab2.
  unfold match_here, uploadResponseRegex.
  rewrite run_Concat, run_Capture.
  apply run_urlPart; [done | by apply stops_blank |]. cbv beta.
  rewrite Str_take_consumed, run_Concat.
  apply run_Plus_greedy; [done | by apply blank_all | done |]. cbv beta.
  cbn [String.append]. rewrite run_Concat, run_Lit, run_Concat, run_Capture.
  apply run_Plus_greedy; [done | by apply label_all | apply stops_bracket |].
  cbv beta. rewrite Str_take_consumed, run_Lit.
  assert (u +:+ sep +:+ String "[" (lab +:+ String "]" s)
          = (u +:+ sep +:+ String "[" (lab +:+ "]")) +:+ s) as ->.
  { rewrite !Str_app_assoc. cbn [String.append].
    by rewrite Str_app_assoc. }
  by rewrite Str_take_consumed.
Qed.

(** No match starts at a character other than [h]. *)
Lemma match_here_not_h a s :
  a <> "h"%char -> match_here uploadResponseRegex (String a s) = None.
Proof.
  intros Ha. unfold match_here, uploadResponseRegex.
  rewrite run_Concat, run_Capture. cbn [Lits]. rewrite !run_Concat.
  by apply run_Lit_ne.
Qed.

Lemma match_here_empty : match_here uploadResponseRegex "" = None.
Proof. done. Qed.

(** The upload pattern does not match in a text without [[]. *)
Lemma upload_needs_bracket s :
  Str.all (fun b => negb (Ascii.eqb b "[")) s = true ->
  doExecute uploadResponseRegex s = None.
Proof.
  intros Hs. apply doExecute_None. intros s' Hs'.
  destruct (match_here uploadResponseRegex s') as [[rest c]|] eqn:E; [| done].
  unfold match_here, uploadResponseRegex in E.
  rewrite run_Concat in E. apply run_inv in E as (s1 & c1 & Hs1 & _ & E).
  rewrite run_Concat in E. apply run_inv in E as (s2 & c2 & Hs2 & _ & E).
  rewrite run_Concat in E. apply run_needs_Lit in E.
  apply (suffixOf_lacks _ _ _ Hs2), (suffixOf_lacks _ _ _ Hs1),
    (suffixOf_lacks _ _ _ Hs') in E. congruence.
Qed.

Lemma doExecute_inert p s :
  inert p = true ->
  doExecute uploadResponseRegex (p +:+ s) = doExecute uploadResponseRegex s.
Proof.
  intros Hp. induction p as [|a p IH]; [done |].
  apply andb_prop in Hp as [Ha Hp]. cbn [String.append doExecute].
  rewrite match_here_not_h, IH; [done.. |].
  intros ->. done.
Qed.

Lemma doExecute_inert_end p :
  inert p = true -> doExecute uploadResponseRegex p = None.
Proof.
  intros Hp. rewrite <- (Str_app_nil_r p). by rewrite doExecute_inert.
Qed.

Lemma blank_inert p : blank p = true -> inert p = true.
Proof.
  unfold blank, inert. induction p as [|a p IH]; simpl; [done |].
  intros [Ha Hp]%andb_prop. rewrite IH by done.
  destruct (Ascii.eqb_spec a "h") as [->|]; done.
Qed.

Lemma wellFormed_inv l :
  wellFormed l = true ->
  httpURL (l_url l) = true /\ nonempty (l_sep l) = true
  /\ blank (l_sep l) = true /\ nonempty (l_label l) = true
  /\ Str.all (fun a => negb (Ascii.eqb a "]")) (l_label l) = true
  /\ blank (l_pad l) = true.
Proof.
  unfold wellFormed. intros H.
  repeat (apply andb_prop in H as [H ?]). done.
Qed.

Lemma render_eq l s :
  render l +:+ s
  = l_url l +:+ l_sep l +:+ "[" +:+ l_label l +:+ "]" +:+ (l_pad l +:+ s).
Proof.
  unfold render. by rewrite !Str_app_assoc.
Qed.

Lemma doExecute_line l s :
  wellFormed l = true ->
  doExecute uploadResponseRegex (render l +:+ s)
  = Some (render l +:+ s, l_pad l +:+ s, matchOf l).
Proof.
  intros (Hu & Hs1 & Hs2 & Hl1 & Hl2 & _)%wellFormed_inv.
  rewrite render_eq.
  pose proof (match_here_line (l_url l) (l_sep l) (l_label l)
                (l_pad l +:+ s) Hu Hs1 Hs2 Hl1 Hl2) as Hm.
  destruct (l_url l +:+ l_sep l +:+ "[" +:+ l_label l +:+ "]"
            +:+ l_pad l +:+ s) eqn:E; cbn [doExecute]; by rewrite Hm.
Qed.

Lemma length_render_lt l s :
  String.length (l_pad l +:+ s) < String.length (render l +:+ s).
Proof.
  rewrite render_eq, !Str_length_app. cbn [String.append String.length].
  rewrite ?Str_length_app. cbn [String.length]. rewrite ?Str_length_app. lia.
Qed.

(** One turn of the loop: the text up to the first line is skipped, the
    line is delivered and the search goes on behind it. *)
Lemma allMatches_line fuel p l s prev :
  inert p = true -> wellFormed l = true ->
  allMatches (S fuel) uploadResponseRegex (p +:+ render l +:+ s) prev
  = matchOf l
    :: allMatches fuel uploadResponseRegex (l_pad l +:+ s)
         (Some (String.length (l_pad l +:+ s))).
Proof.
  intros Hp Hl. cbn [allMatches].
  rewrite doExecute_inert, doExecute_line by done.
  destruct (Nat.eqb_spec (String.length (l_pad l +:+ s))
              (String.length (p +:+ render l +:+ s))) as [E|]; [| done].
  pose proof (length_render_lt l s). rewrite (Str_length_app p) in E. lia.
Qed.

Lemma allMatches_rendered ls : forall fuel p prev,
  inert p = true -> forallb wellFormed ls = true -> length ls < fuel ->
  allMatches fuel uploadResponseRegex (p +:+ renderAll ls) prev
  = map matchOf ls.
Proof.
  induction ls as [|l ls IH]; intros fuel p prev Hp Hls Hfuel;
    (destruct fuel as [|fuel]; [simpl in Hfuel; lia |]).
  - cbn [renderAll allMatches map].
    by rewrite doExecute_inert, doExecute_inert_end.
  - apply andb_prop in Hls as [Hl Hls]. cbn [renderAll map].
    rewrite allMatches_line by done. f_equal.
    apply IH; [| done | simpl in Hfuel; lia].
    apply blank_inert. by apply wellFormed_inv in Hl as (_&_&_&_&_&?).
Qed.

Lemma length_renderAll ls : length ls <= String.length (renderAll ls).
Proof.
  induction ls as [|l ls IH]; [done |]. cbn [renderAll length].
  pose proof (length_render_lt l (renderAll ls)) as H.
  rewrite Str_length_app in H. lia.
Qed.

(** The matches of a body made of well-formed lines are its lines, in
    their order. *)
Lemma FindAll_rendered p ls :
  inert p = true -> forallb wellFormed ls = true ->
  FindAllStringSubmatch uploadResponseRegex (p +:+ renderAll ls)
  = map matchOf ls.
Proof.
  intros Hp Hls. unfold FindAllStringSubmatch.
  apply allMatches_rendered; [done.. |].
  rewrite Str_length_app. pose proof (length_renderAll ls). lia.
Qed.

Lemma FindAll_no_match s :
  doExecute uploadResponseRegex s = None ->
  FindAllStringSubmatch uploadResponseRegex s = [].
Proof. unfold FindAllStringSubmatch. cbn [allMatches]. by intros ->. Qed.

(** ** Letter-casing *)

Lemma recasedByte_inv a b :
  recasedByte a b = true ->
  a = b
  \/ (strings.isUpper a = true /\ b = ascii_of_N (N_of_ascii a + 32))
  \/ (strings.isUpper b = true /\ a = ascii_of_N (N_of_ascii b + 32)).
Proof.
  unfold recasedByte. intros [[H|H]%orb_prop|H]%orb_prop.
  - left. by apply Ascii.eqb_eq.
  - right; left. apply andb_prop in H as [? ?%Ascii.eqb_eq]. done.
  - right; right. apply andb_prop in H as [? ?%Ascii.eqb_eq]. done.
Qed.

Lemma upper_shift a :
  strings.isUpper a = true ->
  let b := ascii_of_N (N_of_ascii a + 32) in
  (N_of_ascii a <? 128)%N = true /\ (N_of_ascii b <? 128)%N = true
  /\ strings.lowerByte a = b /\ strings.lowerByte b = b
  /\ a <> "]"%char /\ b <> "]"%char.
Proof.
  destruct a as [[] [] [] [] [] [] [] []]; intros H; try discriminate H;
    vm_compute; done.
Qed.

Lemma recasedByte_spec a b :
  recasedByte a b = true -> (N_of_ascii b <? 128)%N = true ->
  (N_of_ascii a <? 128)%N = true
  /\ strings.lowerByte a = strings.lowerByte b
  /\ (b <> "]"%char -> a <> "]"%char).
Proof.
  intros [-> | [[Ha ->] | [Hb ->]]]%recasedByte_inv Hb'; [done | |].
  - destruct (upper_shift a Ha) as (?&?&->&->&?&?). done.
  - destruct (upper_shift b Hb) as (?&?&->&->&?&?). done.
Qed.

Lemma recased_spec s : forall t,
  recased s t = true -> strings.isASCII t = true ->
  strings.isASCII s = true
  /\ strings.mapBytes strings.lowerByte s = strings.mapBytes strings.lowerByte t
  /\ nonempty s = nonempty t
  /\ (Str.all (fun a => negb (Ascii.eqb a "]")) t = true ->
      Str.all (fun a => negb (Ascii.eqb a "]")) s = true).
Proof.
  induction s as [|a s IH]; intros [|b t] H Ht; try done.
  simpl in H, Ht. apply andb_prop in H as [Hab Hst].
  apply andb_prop in Ht as [Hb Ht].
  destruct (IH t Hst Ht) as (IH1 & IH2 & _ & IH4).
  destruct (recasedByte_spec a b Hab Hb) as (Ha1 & Ha2 & Ha3).
  unfold strings.isASCII in *. simpl. rewrite Ha1, IH1, Ha2, IH2.
  repeat split; try done.
  intros [Hb' Ht']%andb_prop. rewrite IH4 by done.
  destruct (Ascii.eqb_spec a "]") as [->|]; [| done].
  destruct (Ascii.eqb_spec b "]") as [->|]; [done |]. by destruct Ha3.
Qed.

(** A label in any letter-casing lower-cases to the lower-case label. *)
Lemma recased_ToLower s t :
  recased s t = true -> strings.isASCII t = true ->
  strings.ToLower Map_unicode_ToLower s
  = strings.mapBytes strings.lowerByte t.
Proof.
  intros H Ht. destruct (recased_spec s t H Ht) as (Hs & <- & _).
  unfold strings.ToLower. by rewrite Hs.
Qed.

(** ** The upload parser *)

Lemma fields_of_fold (ms : list (list string)) : forall init,
  let r :=
    fold_left
      (fun response match_ =>
         let url := match_ !!! 1 in
         let label := lower (match_ !!! 2) in
         if decide (label = "admin") then
           {| Admin := url;
              Download := Download response;
              TorDownload := TorDownload response |}
         else if decide (label = "download") then
           {| Admin := Admin response;
              Download := url;
              TorDownload := TorDownload response |}
         else if decide (label = "tor download") then
           {| Admin := Admin response;
              Download := Download response;
              TorDownload := url |}
         else response)
      ms init in
  Admin r = default (Admin init) (lastLabelled "admin" ms)
  /\ Download r = default (Download init) (lastLabelled "download" ms)
  /\ TorDownload r
     = default (TorDownload init) (lastLabelled "tor download" ms).
Proof.
  induction ms as [|m ms IH]; intros init; [done |].
  cbn [fold_left lastLabelled]. cbv zeta in IH |- *.
  destruct (IH
    (if decide (lower (m !!! 2) = "admin") then
       {| Admin := m !!! 1; Download := Download init;
          TorDownload := TorDownload init |}
     else if decide (lower (m !!! 2) = "download") then
       {| Admin := Admin init; Download := m !!! 1;
          TorDownload := TorDownload init |}
     else if decide (lower (m !!! 2) = "tor download") then
       {| Admin := Admin init; Download := Download init;
          TorDownload := m !!! 1 |}
     else init)) as (-> & -> & ->).
  destruct (lastLabelled "admin" ms), (lastLabelled "download" ms),
    (lastLabelled "tor download" ms);
    repeat case_decide; simpl; try done; congruence.
Qed.

(** Each field of the result is the URL of the last match that bears its
    label, and empty when there is none. *)
Lemma parseUploadResponse_fields body :
  parseUploadResponse body
  = let ms := FindAllStringSubmatch uploadResponseRegex body in
    {| Admin := default "" (lastLabelled "admin" ms);
       Download := default "" (lastLabelled "download" ms);
       TorDownload := default "" (lastLabelled "tor download" ms) |}.
Proof.
  unfold parseUploadResponse. cbv zeta.
  pose proof (fields_of_fold (FindAllStringSubmatch uploadResponseRegex body)
                {| Admin := ""; Download := ""; TorDownload := "" |}) as H.
  cbv zeta in H. destruct H as (H1 & H2 & H3).
  destruct (fold_left _ _ _) as [x y z]. simpl in *. by subst.
Qed.

Lemma lastLabelled_app lab (ms1 ms2 : list (list string)) :
  lastLabelled lab (ms1 ++ ms2)
  = match lastLabelled lab ms2 with
    | Some u => Some u
    | None => lastLabelled lab ms1
    end.
Proof.
  induction ms1 as [|m ms1 IH]; cbn [app lastLabelled].
  - by destruct (lastLabelled lab ms2).
  - rewrite IH. by destruct (lastLabelled lab ms2).
Qed.

Lemma lastLabelled_lines_None lab (ls : list Line) :
  (forall l, l ∈ ls -> lower (l_label l) <> lab) ->
  lastLabelled lab (map matchOf ls) = None.
Proof.
  induction ls as [|l ls IH]; intros H; [done |]. cbn [map lastLabelled].
  rewrite IH by (intros; apply H; by right).
  unfold matchOf at 1. cbn. case_decide; [| done].
  destruct (H l); [by left | done].
Qed.

Lemma lastLabelled_sound lab (ls : list Line) u :
  lastLabelled lab (map matchOf ls) = Some u ->
  exists l, l ∈ ls /\ lower (l_label l) = lab /\ l_url l = u.
Proof.
  induction ls as [|l0 ls IH]; [done |]. cbn [map lastLabelled].
  destruct (lastLabelled lab (map matchOf ls)) as [u'|].
  - intros [= ->]. destruct IH as (l & ? & ? & ?); [done |].
    exists l. split; [by right | done].
  - unfold matchOf at 1. cbn. case_decide; [| done]. intros [= <-].
    exists l0. split; [by left | done].
Qed.

Lemma lastLabelled_complete lab (ls : list Line) l :
  l ∈ ls -> lower (l_label l) = lab ->
  is_Some (lastLabelled lab (map matchOf ls)).
Proof.
  induction ls as [|l0 ls IH]; intros Hin Hlab; [by inversion Hin |].
  cbn [map lastLabelled].
  destruct (lastLabelled lab (map matchOf ls)) as [u'|] eqn:E; [done |].
  apply elem_of_cons in Hin as [<- | Hin].
  - unfold matchOf at 1. cbn. by rewrite decide_True.
  - by destruct (IH Hin Hlab).
Qed.

(** When every line labelled [lab] carries the same URL, that URL is what
    the label gets, wherever those lines stand. *)
Lemma lastLabelled_lines lab (ls : list Line) l u :
  l ∈ ls -> lower (l_label l) = lab -> l_url l = u ->
  (forall l', l' ∈ ls -> lower (l_label l') = lab -> l_url l' = u) ->
  lastLabelled lab (map matchOf ls) = Some u.
Proof.
  intros Hin Hlab Hu Hall.
  destruct (lastLabelled_complete lab ls l Hin Hlab) as [u' E].
  rewrite E. f_equal.
  destruct (lastLabelled_sound lab ls u' E) as (l' & ? & ? & <-).
  by apply Hall.
Qed.

Lemma lineOf_inv url label l :
  lineOf url label l = true ->
  httpURL url = true -> strings.isASCII label = true ->
  nonempty label = true ->
  Str.all (fun a => negb (Ascii.eqb a "]")) label = true ->
  wellFormed l = true /\ l_url l = url
  /\ lower (l_label l) = strings.mapBytes strings.lowerByte label.
Proof.
  unfold lineOf, wellFormed. intros H Hu Ha Hne Hbr.
  repeat (apply andb_prop in H as [H ?]).
  apply String.eqb_eq in H. subst url.
  destruct (recased_spec _ _ ltac:(eassumption) Ha) as (_ & _ & Hn & Hb).
  rewrite (recased_ToLower _ label) by done.
  rewrite Hu, Hn, Hne, Hb by done. repeat split; try done.
  by repeat (apply andb_true_intro; split).
Qed.

Lemma forallb_elem_of {A} (f : A -> bool) (l : list A) :
  forallb f l = true <-> (forall x, x ∈ l -> f x = true).
Proof.
  rewrite forallb_forall. split; intros H x Hx; apply H;
    by apply list_elem_of_In.
Qed.

(** The result for a body made of well-formed lines. *)
Lemma parseUploadResponse_rendered ws ls :
  blank ws = true -> forallb wellFormed ls = true ->
  parseUploadResponse (ws +:+ renderAll ls)
  = {| Admin := default "" (lastLabelled "admin" (map matchOf ls));
       Download := default "" (lastLabelled "download" (map matchOf ls));
       TorDownload :=
         default "" (lastLabelled "tor download" (map matchOf ls)) |}.
Proof.
  intros Hws Hls. rewrite parseUploadResponse_fields. cbv zeta.
  by rewrite FindAll_rendered by (by try apply blank_inert).
Qed.

Lemma parseUploadResponse_shapeless body :
  shapeless body = true ->
  parseUploadResponse body
  = {| Admin := ""; Download := ""; TorDownload := "" |}.
Proof.
  intros [H|H]%orb_prop; unfold parseUploadResponse;
    rewrite FindAll_no_match;
    auto using doExecute_inert_end, upload_needs_bracket.
Qed.

Lemma oneLine_render url sep label :
  oneLine url sep label
  = "" +:+ renderAll [{| l_url := url; l_sep := sep; l_label := label;
                         l_pad := "" |}].
Proof.
  unfold oneLine.
  cbn [renderAll render l_url l_sep l_label l_pad String.append].
  by rewrite !Str_app_nil_r.
Qed.

Lemma parseUploadResponse_oneLine url sep label :
  httpURL url = true -> nonempty sep = true -> blank sep = true ->
  nonempty label = true ->
  Str.all (fun a => negb (Ascii.eqb a "]")) label = true ->
  parseUploadResponse (oneLine url sep label)
  = {| Admin := if decide (lower label = "admin") then url else "";
       Download := if decide (lower label = "download") then url else "";
       TorDownload :=
         if decide (lower label = "tor download") then url else "" |}.
Proof.
  intros Hu Hs1 Hs2 Hl1 Hl2.
  rewrite oneLine_render, parseUploadResponse_rendered; [| done |].
  - cbn. by repeat case_decide.
  - cbn [forallb]. unfold wellFormed. cbn [l_url l_sep l_label l_pad].
    by rewrite Hu, Hs1, Hs2, Hl1, Hl2.
Qed.

(** C1. A body made of the three lines [http://a/1 [Admin]],
    [http://a/2 [Download]] and [http://a/3 [Tor download]], in any order,
    with any white space (characters of [\s]) before, between and after
    them and between a URL and its label, and the labels in any
    letter-casing, gives exactly these three URLs in the three fields.
    A body with the Download line and otherwise only lines whose labels
    are not known gives the Download field alone: the other labels are
    passed over. *)
Theorem parseUploadResponse_three_lines
    (ws : string) (a d t : Line) (ls : list Line)
    (ws' : string) (d' : Line) (before after : list Line) :
  blank ws = true ->
  lineOf "http://a/1" "Admin" a = true ->
  lineOf "http://a/2" "Download" d = true ->
  lineOf "http://a/3" "Tor download" t = true ->
  ls ≡ₚ [a; d; t] ->
  blank ws' = true ->
  lineOf "http://a/2" "Download" d' = true ->
  forallb (fun l => wellFormed l && negb (recognized (l_label l)))
    (before ++ after) = true ->
  parseUploadResponse (ws +:+ renderAll ls)
  = {| Admin := "http://a/1";
       Download := "http://a/2";
       TorDownload := "http://a/3" |}
  /\ parseUploadResponse (ws' +:+ renderAll (before ++ d' :: after))
     = {| Admin := ""; Download := "http://a/2"; TorDownload := "" |}.
Proof.
  intros Hws Ha Hd Ht Hperm Hws' Hd' Hothers.
  apply lineOf_inv in Ha as (Ha1 & Ha2 & Ha3); [| done..].
  apply lineOf_inv in Hd as (Hd1 & Hd2 & Hd3); [| done..].
  apply lineOf_inv in Ht as (Ht1 & Ht2 & Ht3); [| done..].
  apply lineOf_inv in Hd' as (Hd'1 & Hd'2 & Hd'3); [| done..].
  change (strings.mapBytes _ "Admin") with "admin" in Ha3.
  change (strings.mapBytes _ "Download") with "download" in Hd3, Hd'3.
  change (strings.mapBytes _ "Tor download") with "tor download" in Ht3.
  assert (forall l, l ∈ ls -> l = a \/ l = d \/ l = t) as Hls.
  { intros l Hl. rewrite Hperm in Hl. set_solver. }
  split.
  - rewrite parseUploadResponse_rendered; [| done |].
    + rewrite (lastLabelled_lines "admin" ls a "http://a/1");
        [| rewrite Hperm; set_solver | done..
         | intros l [-> | [-> | ->]]%Hls; congruence].
      rewrite (lastLabelled_lines "download" ls d "http://a/2");
        [| rewrite Hperm; set_solver | done..
         | intros l [-> | [-> | ->]]%Hls; congruence].
      rewrite (lastLabelled_lines "tor download" ls t "http://a/3");
        [| rewrite Hperm; set_solver | done..
         | intros l [-> | [-> | ->]]%Hls; congruence].
      done.
    + apply forallb_elem_of. intros l [-> | [-> | ->]]%Hls; done.
  - rewrite forallb_elem_of in Hothers.
    assert (forall l, l ∈ before ++ d' :: after ->
              l = d' \/ (wellFormed l = true /\ recognized (l_label l) = false))
      as Hl.
    { intros l [Hin | [-> | Hin]%elem_of_cons]%elem_of_app;
        [right | by left | right].
      all: assert (l ∈ before ++ after) as Hin' by set_solver.
      all: apply Hothers in Hin'; apply andb_prop in Hin' as [? ?].
      all: by rewrite <- negb_true_iff. }
    assert (forall l lab, recognized (l_label l) = false ->
              lab = "admin" \/ lab = "download" \/ lab = "tor download" ->
              lower (l_label l) <> lab) as Hunrec.
    { intros l lab Hr Hlab E. unfold recognized in Hr. rewrite E in Hr.
      destruct Hlab as [-> | [-> | ->]]; done. }
    rewrite parseUploadResponse_rendered; [| done |].
    + rewrite (lastLabelled_lines_None "admin");
        [| intros l [-> | [_ Hr]]%Hl; [congruence | by apply Hunrec; auto]].
      rewrite (lastLabelled_lines_None "tor download");
        [| intros l [-> | [_ Hr]]%Hl; [congruence | by apply Hunrec; auto]].
      rewrite (lastLabelled_lines "download" _ d' "http://a/2");
        [done | set_solver | done..
        | intros l [-> | [_ Hr]]%Hl E;
            [done | by destruct (Hunrec l "download" Hr); auto]].
    + apply forallb_elem_of. intros l [-> | [? _]]%Hl; done.
Qed.

(** C6 (as amended).  Every well-formed line of a body is matched, in
    order, each match giving the URL and the label of its line.  The
    pattern asks of the URL token that it start with [http://] or
    [https://] and go on with at least one character, none of them white
    space, and nothing more: a line [t [L]] with such a token [t] and a
    known label [L], in any letter-casing, puts [t] in the field of [L]. *)
Theorem parseUploadResponse_url_token
    (ws : string) (ls : list Line) (t sep la ld lt : string) :
  blank ws = true -> forallb wellFormed ls = true ->
  httpURL t = true -> nonempty sep = true -> blank sep = true ->
  recased la "Admin" = true -> recased ld "Download" = true ->
  recased lt "Tor download" = true ->
  FindAllStringSubmatch uploadResponseRegex (ws +:+ renderAll ls)
  = map matchOf ls
  /\ Admin (parseUploadResponse (oneLine t sep la)) = t
  /\ Download (parseUploadResponse (oneLine t sep ld)) = t
  /\ TorDownload (parseUploadResponse (oneLine t sep lt)) = t.
Proof.
  intros Hws Hls Ht Hs1 Hs2 Ha Hd Htor.
  split; [apply FindAll_rendered; by try apply blank_inert |].
  pose proof (recased_ToLower _ _ Ha eq_refl) as Ea.
  pose proof (recased_ToLower _ _ Hd eq_refl) as Ed.
  pose proof (recased_ToLower _ _ Htor eq_refl) as Et.
  change (strings.mapBytes _ "Admin") with "admin" in Ea.
  change (strings.mapBytes _ "Download") with "download" in Ed.
  change (strings.mapBytes _ "Tor download") with "tor download" in Et.
  destruct (recased_spec _ _ Ha eq_refl) as (_ & _ & Hna & Hba).
  destruct (recased_spec _ _ Hd eq_refl) as (_ & _ & Hnd & Hbd).
  destruct (recased_spec _ _ Htor eq_refl) as (_ & _ & Hnt & Hbt).
  rewrite !parseUploadResponse_oneLine by auto.
  cbn [Admin Download TorDownload]. rewrite Ea, Ed, Et. done.
Qed.

(** C9. Each field holds the URL of the last match bearing its label.  In
    a body of well-formed lines, a line labelled Admin, Download or Tor
    download gives its URL to the field whenever no later line bears the
    same label, whatever the earlier lines are. *)
Theorem parseUploadResponse_last_wins
    (body ws : string) (before : list Line) (l : Line) (after : list Line) :
  blank ws = true ->
  forallb wellFormed (before ++ l :: after) = true ->
  forallb (fun l' => negb (bool_decide (lower (l_label l')
                                        = lower (l_label l)))) after = true ->
  let ms := FindAllStringSubmatch uploadResponseRegex body in
  let r := parseUploadResponse (ws +:+ renderAll (before ++ l :: after)) in
  parseUploadResponse body
  = {| Admin := default "" (lastLabelled "admin" ms);
       Download := default "" (lastLabelled "download" ms);
       TorDownload := default "" (lastLabelled "tor download" ms) |}
  /\ (lower (l_label l) = "admin" -> Admin r = l_url l)
  /\ (lower (l_label l) = "download" -> Download r = l_url l)
  /\ (lower (l_label l) = "tor download" -> TorDownload r = l_url l).
Proof.
  intros Hws Hls Hafter ms r.
  split; [apply parseUploadResponse_fields |].
  assert (forall lab, lower (l_label l) = lab ->
            lastLabelled lab (map matchOf (before ++ l :: after))
            = Some (l_url l)) as Hlast.
  { intros lab Hlab. rewrite map_app, lastLabelled_app.
    cbn [map lastLabelled]. rewrite lastLabelled_lines_None.
    - unfold matchOf at 1. cbn. by rewrite decide_True.
    - rewrite forallb_elem_of in Hafter. intros l' Hl'%Hafter.
      apply negb_true_iff, bool_decide_eq_false in Hl'. congruence. }
  subst r. rewrite parseUploadResponse_rendered by done.
  cbn [Admin Download TorDownload].
  repeat split; intros E; by rewrite (Hlast _ E).
Qed.

(** ** The hashsum parser *)

Lemma star_prefix {R} cs t s (k : string -> option R) x :
  Str.all (charset_has cs) t = true -> star cs s k = Some x ->
  star cs (t +:+ s) k = Some x.
Proof.
  intros Ht Hs. induction t as [|a t IH]; simpl in *; [done |].
  apply andb_prop in Ht as [-> Ht]. by rewrite IH.
Qed.

Lemma star_None {R} cs s (k : string -> option R) :
  (forall s', suffixOf s' s -> k s' = None) -> star cs s k = None.
Proof.
  intros H. destruct (star cs s k) as [x|] eqn:E; [| done].
  apply star_inv in E as (s' & Hs' & E). by rewrite H in E.
Qed.

Lemma perl_space_not_alnum a : perl_space a = true -> alnum a = false.
Proof.
  unfold perl_space. intros H.
  repeat (apply orb_prop in H as [H|H]); apply Ascii.eqb_eq in H as ->; done.
Qed.

Local Abbreviation alnumSet :=
  (Charset false [Range "0" "9"; Range "a" "z"; Range "A" "Z"]).

(** The hashsum pattern on [<hash><sep>(<mid>)<tail>]: the second group
    runs to the last closing parenthesis, so [mid] may itself contain
    some. *)
Lemma match_here_hashsum hash sep mid tail :
  nonempty hash = true -> Str.all alnum hash = true ->
  nonempty sep = true -> blank sep = true ->
  nonempty mid = true ->
  Str.all (fun a => negb (Ascii.eqb a "]")) mid = true ->
  Str.all (fun a => negb (Ascii.eqb a "]") && negb (Ascii.eqb a ")")) tail
  = true ->
  match_here hashsumResponseRegex
    (hash +:+ sep +:+ "(" +:+ mid +:+ ")" +:+ tail)
  = Some (tail, [hash +:+ sep +:+ "(" +:+ mid +:+ ")"; hash; mid]).
Proof.
  intros Hh1 Hh2 Hs1 Hs2 Hm1 Hm2 Ht.
  unfold match_here, hashsumResponseRegex.
  rewrite run_Concat, run_Capture.
  apply run_Plus_greedy; [done | done | |].
  { destruct sep as [|a sep]; [done |]. simpl in *.
    apply andb_prop in Hs2 as [Ha _]. by apply perl_space_not_alnum. }
  cbv beta. rewrite Str_take_consumed, run_Concat.
  apply run_Plus_greedy; [done | by apply blank_all | done |]. cbv beta.
  cbn [String.append]. rewrite run_Concat, run_Lit, run_Concat, run_Capture.
  destruct mid as [|a mid]; [done |]. cbn [String.append run].
  simpl in Hm2. apply andb_prop in Hm2 as [Ha Hm2].
  assert (charset_has notBracket a = true) as ->.
  { unfold charset_has; simpl. by destruct (Ascii.eqb a "]"). }
  apply star_prefix; [by apply label_all |]. cbn [star].
  assert (charset_has notBracket ")" = true) as -> by done.
  rewrite star_None.
  - change (String a (mid +:+ String ")" tail))
      with (String a mid +:+ String ")" tail).
    rewrite Str_take_consumed, run_Lit.
    assert (hash +:+ sep +:+ String "(" (String a mid +:+ String ")" tail)
            = (hash +:+ sep +:+ String "(" (String a mid +:+ ")")) +:+ tail)
      as ->.
    { rewrite !Str_app_assoc. cbn [String.append].
      by rewrite Str_app_assoc. }
    by rewrite Str_take_consumed.
  - intros s' Hs'. destruct s' as [|b s']; [done |].
    apply run_Lit_ne. intros <-.
    apply (suffixOf_all _ _ _ Hs') in Ht. by simpl in Ht.
Qed.

Lemma parseHashsumResponse_shape hash sep mid tail :
  nonempty hash = true -> Str.all alnum hash = true ->
  nonempty sep = true -> blank sep = true ->
  nonempty mid = true ->
  Str.all (fun a => negb (Ascii.eqb a "]")) mid = true ->
  Str.all (fun a => negb (Ascii.eqb a "]") && negb (Ascii.eqb a ")")) tail
  = true ->
  parseHashsumResponse (hash +:+ sep +:+ "(" +:+ mid +:+ ")" +:+ tail)
  = ({| Algorithm := mid; Hashsum := hash |}, None).
Proof.
  intros. unfold parseHashsumResponse, FindStringSubmatch. cbv zeta.
  destruct hash as [|a hash]; [done |]. cbn [String.append doExecute].
  change (String a (hash +:+ sep +:+ String "(" (mid +:+ String ")" tail)))
    with (String a hash +:+ sep +:+ "(" +:+ mid +:+ ")" +:+ tail).
  by rewrite match_here_hashsum.
Qed.

(** The hashsum pattern does not match in a text without [(]. *)
Lemma hashsum_needs_paren s :
  Str.all (fun b => negb (Ascii.eqb b "(")) s = true ->
  doExecute hashsumResponseRegex s = None.
Proof.
  intros Hs. apply doExecute_None. intros s' Hs'.
  destruct (match_here hashsumResponseRegex s') as [[rest c]|] eqn:E;
    [| done].
  unfold match_here, hashsumResponseRegex in E.
  rewrite run_Concat in E. apply run_inv in E as (s1 & c1 & Hs1 & _ & E).
  rewrite run_Concat in E. apply run_inv in E as (s2 & c2 & Hs2 & _ & E).
  rewrite run_Concat in E. apply run_needs_Lit in E.
  apply (suffixOf_lacks _ _ _ Hs2), (suffixOf_lacks _ _ _ Hs1),
    (suffixOf_lacks _ _ _ Hs') in E. congruence.
Qed.

Lemma FindStringSubmatch_hashsum_needs_paren body :
  Str.all (fun b => negb (Ascii.eqb b "(")) body = true ->
  FindStringSubmatch hashsumResponseRegex body = [].
Proof.
  intros H. unfold FindStringSubmatch.
  by rewrite hashsum_needs_paren.
Qed.

Lemma parseHashsumResponse_no_match body :
  length (FindStringSubmatch hashsumResponseRegex body) < hashsumMatches ->
  parseHashsumResponse body
  = ({| Algorithm := ""; Hashsum := "" |},
     Some (Errorf_w_s ErrWrongResponse body)).
Proof.
  intros H. unfold parseHashsumResponse. cbv zeta.
  by rewrite (proj2 (Nat.ltb_lt _ _) H).
Qed.

(** C2. The body [deadbeef (sha256)] gives the algorithm [sha256] and the
    hashsum [deadbeef].  A body in which the pattern finds no match, so
    that fewer than three strings come back, gives the zero result and an
    error that wraps [ErrWrongResponse] and whose message ends with the
    body itself; this is the case of every body without a [(]. *)
Theorem parseHashsumResponse_strict (body unparenthesized : string) :
  length (FindStringSubmatch hashsumResponseRegex body) < hashsumMatches ->
  Str.all (fun b => negb (Ascii.eqb b "(")) unparenthesized = true ->
  parseHashsumResponse "deadbeef (sha256)"
  = ({| Algorithm := "sha256"; Hashsum := "deadbeef" |}, None)
  /\ (exists err,
        parseHashsumResponse body
        = ({| Algorithm := ""; Hashsum := "" |}, Some err)
        /\ errors_Is err ErrWrongResponse = true
        /\ error_Error err = "wrong response: " +:+ body)
  /\ (exists err,
        parseHashsumResponse unparenthesized
        = ({| Algorithm := ""; Hashsum := "" |}, Some err)
        /\ errors_Is err ErrWrongResponse = true
        /\ error_Error err = "wrong response: " +:+ unparenthesized).
Proof.
  intros Hbody Hun. split; [by vm_compute |].
  split; eexists; (split; [apply parseHashsumResponse_no_match | done]);
    [done |].
  rewrite FindStringSubmatch_hashsum_needs_paren by done.
  unfold hashsumMatches. simpl. lia.
Qed.

(** C10. The second group of the hashsum pattern stops at []], not at
    [)]: on [abc (de)f)] the parser succeeds, and the algorithm it returns
    runs up to the last closing parenthesis, [de)f]. *)
Theorem parseHashsumResponse_greedy_group :
  parseHashsumResponse "abc (de)f)"
  = ({| Algorithm := "de)f"; Hashsum := "abc" |}, None)
  /\ fst (GetHashsum (RT := stubRuntime) tt "abc"
            (stubClient 200 "abc (de)f)"))
     = ({| Algorithm := "de)f"; Hashsum := "abc" |}, None).
Proof. split; by vm_compute. Qed.

(** ** The upload URL *)

(** [FormatUint] writes in base 10: reading the digits back gives the
    number. *)
Lemma FormatUint_decimal n :
  N.of_uint <$> NilZero.uint_of_string (FormatUint n) = Some n.
Proof.
  unfold FormatUint. rewrite NilZero.usu.
  - simpl. f_equal. apply DecimalN.Unsigned.of_to.
  - destruct n as [|p]; [done |]. apply DecimalPos.Unsigned.to_uint_nonnil.
Qed.

Lemma prepareUploadURL_parsed c img url :
  url_Parse (endpoint c) = Ok url ->
  fst (prepareUploadURL img c)
  = (URL_String
       {| url.rest := url.rest _ url;
          url.RawQuery :=
            Values_Encode
              (let query := URL_Query url in
               let query :=
                 if decide (Image.filename img <> filename)
                 then url.Set_ query filename (Image.filename img)
                 else query in
               let query :=
                 if decide (0 < Image.expire img)%N
                 then url.Set_ query expire (FormatUint (Image.expire img))
                 else query in
               let query :=
                 if Image.autodestroy img
                 then url.Set_ query autodestroy "1" else query in
               let query :=
                 if Image.randomizefn img
                 then url.Set_ query randomizefn "1" else query in
               if Image.shorturl img
               then url.Set_ query shorturl "1" else query) |},
     None).
Proof.
  intros H. unfold prepareUploadURL, bind, gets, ret. cbn. by rewrite H.
Qed.

(** C3. The query of the upload URL is the query of the endpoint with a
    parameter set for each directive that is not at its default, and for
    no other: [filename] when the file name is not the text [filename],
    [expire] in base 10 when it is above zero, and [autodestroy],
    [randomizefn] and [shorturl] as [1] when true.  A parameter whose
    directive is at its default is left as the endpoint has it, which is
    absent when the endpoint has no query of its own. *)
Theorem prepareUploadURL_query
    (c : Client) (img : Image) (url : url.URL URLRest) :
  url_Parse (endpoint c) = Ok url ->
  exists query : url.Values,
    fst (prepareUploadURL img c)
    = (URL_String {| url.rest := url.rest _ url;
                     url.RawQuery := Values_Encode query |}, None)
    /\ query !! filename
       = (if decide (Image.filename img <> "filename")
          then Some [Image.filename img] else URL_Query url !! filename)
    /\ query !! expire
       = (if decide (0 < Image.expire img)%N
          then Some [FormatUint (Image.expire img)]
          else URL_Query url !! expire)
    /\ N.of_uint <$> NilZero.uint_of_string (FormatUint (Image.expire img))
       = Some (Image.expire img)
    /\ query !! autodestroy
       = (if Image.autodestroy img then Some ["1"]
          else URL_Query url !! autodestroy)
    /\ query !! randomizefn
       = (if Image.randomizefn img then Some ["1"]
          else URL_Query url !! randomizefn)
    /\ query !! shorturl
       = (if Image.shorturl img then Some ["1"]
          else URL_Query url !! shorturl)
    /\ (forall key,
          key ∉ [filename; expire; autodestroy; randomizefn; shorturl] ->
          query !! key = URL_Query url !! key)
    /\ (URL_Query url = ∅ ->
        forall key, is_Some (query !! key) <->
          (key = filename /\ Image.filename img <> "filename")
          \/ (key = expire /\ (0 < Image.expire img)%N)
          \/ (key = autodestroy /\ Image.autodestroy img = true)
          \/ (key = randomizefn /\ Image.randomizefn img = true)
          \/ (key = shorturl /\ Image.shorturl img = true)).
Proof.
  intros Hparse. eexists. split; [by apply prepareUploadURL_parsed |].
  cbv zeta. unfold url.Set_, filename, expire, autodestroy, randomizefn,
    shorturl.
  destruct (Image.autodestroy img), (Image.randomizefn img),
    (Image.shorturl img);
    destruct (decide (Image.filename img <> "filename")),
      (decide (0 < Image.expire img)%N).
  all: repeat match goal with |- _ /\ _ => split end.
  all: try apply FormatUint_decimal.
  all: try (by simplify_map_eq).
  all: try (intros key Hkey; rewrite !not_elem_of_cons in Hkey;
            destruct Hkey as (? & ? & ? & ? & ? & _); by simplify_map_eq).
  all: intros -> key; rewrite ?lookup_insert_is_Some, lookup_empty.
  all: split; [intros H | intros H].
  all: try (destruct H as [? ?]; done).
  all: naive_solver.
Qed.

(** ** The operations *)

Lemma readOnly_ret {A} (a : A) : readOnly (ret a).
Proof. done. Qed.

Lemma readOnly_gets {A} (field : Client -> A) : readOnly (gets field).
Proof. done. Qed.

Lemma readOnly_bind {A B} (m : M A) (f : A -> M B) :
  readOnly m -> (forall a, readOnly (f a)) -> readOnly (bind m f).
Proof.
  intros Hm Hf c. unfold bind. specialize (Hm c).
  destruct (m c) as [a c']. simpl in Hm. subst c'. apply Hf.
Qed.

Ltac read_only :=
  repeat first
    [ apply readOnly_ret
    | apply readOnly_gets
    | apply readOnly_bind; [| intros ?]
    | case_match ].

Lemma readOnly_prepareUploadURL img : readOnly (prepareUploadURL img).
Proof. unfold prepareUploadURL. read_only. Qed.

Lemma readOnly_GetTorEndpoint ctx : readOnly (GetTorEndpoint ctx).
Proof. unfold GetTorEndpoint. read_only. Qed.

Lemma readOnly_GetHashsum ctx file : readOnly (GetHashsum ctx file).
Proof. unfold GetHashsum. read_only. Qed.

Lemma readOnly_Delete ctx adminURL : readOnly (Delete ctx adminURL).
Proof. unfold Delete. read_only. Qed.

Lemma readOnly_Upload ctx img : readOnly (Upload ctx img).
Proof.
  unfold Upload. apply readOnly_bind; [apply readOnly_prepareUploadURL |].
  intros [url err]. read_only.
Qed.

Lemma readOnly_perform op : readOnly (perform op).
Proof.
  destruct op; cbn [perform];
    (apply readOnly_bind; [| intros ?; apply readOnly_ret]);
    auto using readOnly_Upload, readOnly_GetHashsum, readOnly_Delete,
      readOnly_GetTorEndpoint.
Qed.

Lemma performAll_spec ops : forall c,
  snd (performAll ops c) = c
  /\ Forall (fun r => fst r = c) (fst (performAll ops c)).
Proof.
  induction ops as [|op ops IH]; intros c; [done |].
  cbn [performAll]. unfold bind, gets, ret. cbn.
  pose proof (readOnly_perform op c) as Hop.
  destruct (perform op c) as [r c1]. simpl in Hop. subst c1.
  destruct (IH c) as [Hc Hrs].
  destruct (performAll ops c) as [rs c2]. simpl in *. subst c2.
  split; [done |]. by constructor.
Qed.

Lemma NewClient_snoc httpClient opts o :
  NewClient httpClient (opts ++ [o]) = snd (o (NewClient httpClient opts)).
Proof. unfold NewClient. by rewrite fold_left_app. Qed.

Lemma NewClient_WithEndpoint httpClient es :
  NewClient httpClient (map WithEndpoint es)
  = {| endpoint := default defaultEndpoint (last es);
       httpClient := httpClient |}.
Proof.
  induction es as [|e es IH] using rev_ind; [done |].
  rewrite map_app. cbn [map]. rewrite NewClient_snoc, IH, last_snoc. done.
Qed.

(** C8. [NewClient] starts from the default endpoint and the given
    transport and applies the options in order; [WithEndpoint] replaces
    the endpoint and nothing else.  After that, no operation writes to
    the client: whatever operations are performed on it, in whatever
    order and with whatever results, each of them starts from the same
    client and the client is the same at the end. *)
Theorem client_is_read_only
    (h : http.Client context_Context) (opts : list Option) (o : Option)
    (es : list string) (ops : list call) (c : Client) :
  NewClient h [] = {| endpoint := defaultEndpoint; httpClient := h |}
  /\ NewClient h (opts ++ [o]) = snd (o (NewClient h opts))
  /\ NewClient h (map WithEndpoint es)
     = {| endpoint := default defaultEndpoint (last es); httpClient := h |}
  /\ snd (performAll ops c) = c
  /\ Forall (fun r => fst r = c) (fst (performAll ops c)).
Proof.
  split; [done |]. split; [apply NewClient_snoc |].
  split; [apply NewClient_WithEndpoint |]. apply performAll_spec.
Qed.

Lemma GetTorEndpoint_answered c ctx u req resp body :
  url_JoinPath (endpoint c) [onion] = Ok u ->
  http_NewRequestWithContext ctx http.MethodGet u None = Ok req ->
  httpClient c req = Ok resp ->
  http.ReadAll_Body resp = Ok body ->
  fst (GetTorEndpoint ctx c)
  = if decide (http.StatusCode resp <> http.StatusOK)
    then ("", Some (statusError resp body)) else (body, None).
Proof.
  intros H1 H2 H3 H4. unfold GetTorEndpoint, bind, gets, ret. cbn.
  rewrite H1, H2, H3, H4. by case_decide.
Qed.

Lemma GetHashsum_answered c ctx file u req resp body :
  url_JoinPath (endpoint c) [hashsum; file] = Ok u ->
  http_NewRequestWithContext ctx http.MethodGet u None = Ok req ->
  httpClient c req = Ok resp ->
  http.ReadAll_Body resp = Ok body ->
  fst (GetHashsum ctx file c)
  = if decide (http.StatusCode resp <> http.StatusOK)
    then ({| Algorithm := ""; Hashsum := "" |}, Some (statusError resp body))
    else parseHashsumResponse body.
Proof.
  intros H1 H2 H3 H4. unfold GetHashsum, bind, gets, ret. cbn.
  rewrite H1, H2, H3, H4. by case_decide.
Qed.

Lemma Delete_answered c ctx adminURL req resp :
  http_NewRequestWithContext ctx http.MethodDelete adminURL None = Ok req ->
  httpClient c req = Ok resp ->
  fst (Delete ctx adminURL c)
  = if decide (http.StatusCode resp <> http.StatusOK)
    then match http.ReadAll_Body resp with
         | Ok body => Some (statusError resp body)
         | Fail err => Some (Errorf_w err)
         end
    else None.
Proof.
  intros H1 H2. unfold Delete, bind, gets, ret. cbn.
  rewrite H1, H2. case_decide; [| done]. by destruct (http.ReadAll_Body resp).
Qed.

Lemma Upload_answered c ctx img u req resp body :
  fst (prepareUploadURL img c) = (u, None) ->
  http_NewRequestWithContext ctx http.MethodPut u (Some (Image.file img))
  = Ok req ->
  httpClient c req = Ok resp ->
  http.ReadAll_Body resp = Ok body ->
  fst (Upload ctx img c)
  = if decide (http.StatusCode resp <> http.StatusOK)
    then ({| Admin := ""; Download := ""; TorDownload := "" |},
          Some (statusError resp body))
    else (parseUploadResponse body, None).
Proof.
  intros H1 H2 H3 H4. unfold Upload, bind.
  pose proof (readOnly_prepareUploadURL img c) as Hc.
  destruct (prepareUploadURL img c) as [[u' err] c']. simpl in H1, Hc.
  injection H1 as -> ->. subst c'. unfold gets, ret. cbn.
  rewrite H2, H3, H4. by case_decide.
Qed.

(** C4. Whatever the status other than 200 and whatever the body of the
    response, each of the four operations returns the error that carries
    exactly that status and that body, and with it the zero value of its
    result.  The body plays no other part: the result is the same for a
    body a parser would have accepted.  Each operation is stated on its
    own, from the answer to its own request alone. *)
Theorem non_200_is_status_error :
  (forall (c : Client) (ctx : context_Context) (img : Image) (u : string)
          (req : http.Request context_Context) (resp : http.Response)
          (body : string),
      fst (prepareUploadURL img c) = (u, None) ->
      http_NewRequestWithContext ctx http.MethodPut u
        (Some (Image.file img)) = Ok req ->
      httpClient c req = Ok resp ->
      http.ReadAll_Body resp = Ok body ->
      http.StatusCode resp <> http.StatusOK ->
      fst (Upload ctx img c)
      = ({| Admin := ""; Download := ""; TorDownload := "" |},
         Some (ptrError {| StatusCode := http.StatusCode resp;
                           Message := body |})))
  /\ (forall (c : Client) (ctx : context_Context) (file u : string)
             (req : http.Request context_Context) (resp : http.Response)
             (body : string),
         url_JoinPath (endpoint c) [hashsum; file] = Ok u ->
         http_NewRequestWithContext ctx http.MethodGet u None = Ok req ->
         httpClient c req = Ok resp ->
         http.ReadAll_Body resp = Ok body ->
         http.StatusCode resp <> http.StatusOK ->
         fst (GetHashsum ctx file c)
         = ({| Algorithm := ""; Hashsum := "" |},
            Some (ptrError {| StatusCode := http.StatusCode resp;
                              Message := body |})))
  /\ (forall (c : Client) (ctx : context_Context) (adminURL : string)
             (req : http.Request context_Context) (resp : http.Response)
             (body : string),
         http_NewRequestWithContext ctx http.MethodDelete adminURL None
         = Ok req ->
         httpClient c req = Ok resp ->
         http.ReadAll_Body resp = Ok body ->
         http.StatusCode resp <> http.StatusOK ->
         fst (Delete ctx adminURL c)
         = Some (ptrError {| StatusCode := http.StatusCode resp;
                             Message := body |}))
  /\ (forall (c : Client) (ctx : context_Context) (u : string)
             (req : http.Request context_Context) (resp : http.Response)
             (body : string),
         url_JoinPath (endpoint c) [onion] = Ok u ->
         http_NewRequestWithContext ctx http.MethodGet u None = Ok req ->
         httpClient c req = Ok resp ->
         http.ReadAll_Body resp = Ok body ->
         http.StatusCode resp <> http.StatusOK ->
         fst (GetTorEndpoint ctx c)
         = ("", Some (ptrError {| StatusCode := http.StatusCode resp;
                                  Message := body |}))).
Proof.
  split; [| split; [| split]].
  - intros c ctx img u req resp body H1 H2 H3 H4 H5.
    rewrite (Upload_answered c ctx img u req resp body) by done.
    by rewrite decide_True by done.
  - intros c ctx file u req resp body H1 H2 H3 H4 H5.
    rewrite (GetHashsum_answered c ctx file u req resp body) by done.
    by rewrite decide_True by done.
  - intros c ctx adminURL req resp body H2 H3 H4 H5.
    rewrite (Delete_answered c ctx adminURL req resp) by done.
    rewrite H4. by rewrite decide_True by done.
  - intros c ctx u req resp body H1 H2 H3 H4 H5.
    rewrite (GetTorEndpoint_answered c ctx u req resp body) by done.
    by rewrite decide_True by done.
Qed.

(** C7. On a 200 response [GetTorEndpoint] returns the body as it was
    read, whatever it is, and no error. *)
Theorem GetTorEndpoint_verbatim
    (c : Client) (ctx : context_Context) (u : string)
    (req : http.Request context_Context) (resp : http.Response)
    (body : string) :
  url_JoinPath (endpoint c) [onion] = Ok u ->
  http_NewRequestWithContext ctx http.MethodGet u None = Ok req ->
  httpClient c req = Ok resp ->
  http.ReadAll_Body resp = Ok body ->
  http.StatusCode resp = http.StatusOK ->
  fst (GetTorEndpoint ctx c) = (body, None).
Proof.
  intros H1 H2 H3 H4 H5.
  rewrite (GetTorEndpoint_answered c ctx u req resp body) by done.
  by rewrite decide_False by (by intros ?).
Qed.

(** C5. The upload parser has no way to fail: on a 200 response [Upload]
    returns what the parser makes of the body, whatever the body, and no
    error.  A body in which the pattern matches nowhere, such as one with
    no [h] or no [[] at all, gives the result with all three fields empty;
    other bodies fill one, two or three of them. *)
Theorem parseUploadResponse_never_fails
    (c : Client) (ctx : context_Context) (img : Image) (u : string)
    (req : http.Request context_Context) (resp : http.Response)
    (body unmatched garbage : string) :
  fst (prepareUploadURL img c) = (u, None) ->
  http_NewRequestWithContext ctx http.MethodPut u (Some (Image.file img))
  = Ok req ->
  httpClient c req = Ok resp ->
  http.ReadAll_Body resp = Ok body ->
  http.StatusCode resp = http.StatusOK ->
  doExecute uploadResponseRegex unmatched = None ->
  shapeless garbage = true ->
  fst (Upload ctx img c) = (parseUploadResponse body, None)
  /\ parseUploadResponse unmatched
     = {| Admin := ""; Download := ""; TorDownload := "" |}
  /\ parseUploadResponse garbage
     = {| Admin := ""; Download := ""; TorDownload := "" |}
  /\ parseUploadResponse "http://a/2 [Download]"
     = {| Admin := ""; Download := "http://a/2"; TorDownload := "" |}
  /\ parseUploadResponse "http://a/2 [Download] http://a/1 [Admin]"
     = {| Admin := "http://a/1"; Download := "http://a/2";
          TorDownload := "" |}
  /\ parseUploadResponse
       "http://a/3 [Tor download] http://a/2 [Download] http://a/1 [Admin]"
     = {| Admin := "http://a/1"; Download := "http://a/2";
          TorDownload := "http://a/3" |}.
Proof.
  intros H1 H2 H3 H4 H5 Hu Hg.
  rewrite (Upload_answered c ctx img u req resp body) by done.
  rewrite decide_False by (by intros ?).
  split; [done |].
  split; [unfold parseUploadResponse; by rewrite FindAll_no_match |].
  split; [by apply parseUploadResponse_shapeless |].
  repeat split; vm_compute; reflexivity.
Qed.

(** ** The matcher: what a match is made of *)

Lemma star_inv_prefix {R} cs s (k : string -> option R) x :
  star cs s k = Some x ->
  exists t s', s = t +:+ s' /\ Str.all (charset_has cs) t = true
               /\ k s' = Some x.
Proof.
  induction s as [|a s IH]; simpl.
  - intros H. by exists "", "".
  - destruct (charset_has cs a) eqn:Ea.
    + destruct (star cs s k) as [y|] eqn:E.
      * intros [= ->]. destruct IH as (t & s' & -> & Ht & Hk); [done |].
        exists (String a t), s'. simpl. by rewrite Ea, Ht.
      * intros H. by exists "", (String a s).
    + intros H. by exists "", (String a s).
Qed.

Lemma run_Plus_inv {R} cs s c (k : string -> caps -> option R) x :
  run (Plus cs) s c k = Some x ->
  exists t s', s = t +:+ s' /\ nonempty t = true
               /\ Str.all (charset_has cs) t = true /\ k s' c = Some x.
Proof.
  cbn [run]. destruct s as [|a s]; [done |].
  destruct (charset_has cs a) eqn:Ea; [| done].
  intros (t & s' & -> & Ht & Hk)%star_inv_prefix.
  exists (String a t), s'. simpl. by rewrite Ea, Ht.
Qed.

Lemma run_Lit_inv {R} a s c (k : string -> caps -> option R) x :
  run (Lit a) s c k = Some x -> exists s', s = String a s' /\ k s' c = Some x.
Proof.
  cbn [run Lit]. destruct s as [|b s]; [done |]. rewrite charset_has_One.
  destruct (Ascii.eqb_spec b a) as [->|]; [| done]. intros H. by exists s.
Qed.

Lemma all_notBracket lab :
  Str.all (charset_has notBracket) lab = true ->
  Str.all (fun a => negb (Ascii.eqb a "]")) lab = true.
Proof.
  induction lab as [|a lab IH]; simpl; [done |].
  intros [Ha Ht]%andb_prop. rewrite IH by done.
  unfold charset_has in Ha; simpl in Ha. by destruct (Ascii.eqb a "]").
Qed.

Lemma all_isSpace sep :
  Str.all (charset_has isSpace) sep = true -> blank sep = true.
Proof.
  unfold blank. induction sep as [|a sep IH]; simpl; [done |].
  intros [Ha Ht]%andb_prop. rewrite IH by done.
  unfold charset_has in Ha; simpl in Ha. by destruct (perl_space a).
Qed.

Lemma all_notSpace tok :
  Str.all (charset_has notSpace) tok = true -> spaceless tok = true.
Proof.
  unfold spaceless. induction tok as [|a tok IH]; simpl; [done |].
  intros [Ha Ht]%andb_prop. rewrite IH by done.
  unfold charset_has in Ha; simpl in Ha. by destruct (perl_space a).
Qed.

(** A match of the hashsum pattern is an alphanumeric token, white space
    and a parenthesized text without []], and its registers are the whole
    of it, the token and the text. *)
Lemma match_here_hashsum_inv s rest c :
  match_here hashsumResponseRegex s = Some (rest, c) ->
  exists hash sep mid,
    s = hash +:+ sep +:+ "(" +:+ mid +:+ ")" +:+ rest
    /\ nonempty hash = true /\ Str.all alnum hash = true
    /\ nonempty sep = true /\ blank sep = true
    /\ nonempty mid = true
    /\ Str.all (fun a => negb (Ascii.eqb a "]")) mid = true
    /\ c = [hash +:+ sep +:+ "(" +:+ mid +:+ ")"; hash; mid].
Proof.
  unfold match_here, hashsumResponseRegex. intros H.
  rewrite run_Concat, run_Capture in H.
  apply run_Plus_inv in H as (hash & s1 & -> & Hh1 & Hh2 & H).
  rewrite Str_take_consumed, run_Concat in H.
  apply run_Plus_inv in H as (sep & s2 & -> & Hs1 & Hs2 & H).
  rewrite run_Concat in H. apply run_Lit_inv in H as (s3 & -> & H).
  rewrite run_Concat, run_Capture in H.
  apply run_Plus_inv in H as (mid & s4 & -> & Hm1 & Hm2 & H).
  rewrite Str_take_consumed in H. apply run_Lit_inv in H as (s5 & -> & H).
  injection H as <- <-.
  exists hash, sep, mid. repeat split; try done.
  - by apply all_isSpace.
  - by apply all_notBracket.
  - assert (hash +:+ sep +:+ String "(" (mid +:+ String ")" s5)
            = (hash +:+ sep +:+ "(" +:+ mid +:+ ")") +:+ s5) as ->.
    { by rewrite !Str_app_assoc. }
    by rewrite Str_take_consumed.
Qed.

Lemma doExecute_inv re s : forall start rest c,
  doExecute re s = Some (start, rest, c) ->
  exists pre, s = pre +:+ start /\ match_here re start = Some (rest, c).
Proof.
  induction s as [|a s IH]; intros start rest c; cbn [doExecute];
    destruct (match_here re _) as [[rest' c']|] eqn:E; try done.
  - intros [= <- <- <-]. by exists "".
  - intros [= <- <- <-]. by exists "".
  - intros (pre & -> & H)%IH. by exists (String a pre).
Qed.

Lemma httpURL_intro tok :
  nonempty tok = true -> spaceless tok = true ->
  httpURL ("http://" +:+ tok) = true /\ httpURL ("https://" +:+ tok) = true.
Proof.
  intros H1 H2. unfold httpURL.
  change (strip "http://" ("http://" +:+ tok)) with (Some tok).
  change (strip "http://" ("https://" +:+ tok)) with (@None string).
  change (strip "https://" ("https://" +:+ tok)) with (Some tok).
  cbv beta iota. by rewrite H1, H2.
Qed.

Lemma run_Quest_inv {R} r s c (k : string -> caps -> option R) x :
  run (Quest r) s c k = Some x -> run r s c k = Some x \/ k s c = Some x.
Proof. cbn [run]. destruct (run r s c k); [left | right]; done. Qed.

(** A match of the upload pattern is a URL that starts with [http://] or
    [https://], white space and a bracketed label, and its registers are
    the whole of it, the URL and the label. *)
Lemma match_here_upload_inv s rest c :
  match_here uploadResponseRegex s = Some (rest, c) ->
  exists u sep lab,
    s = u +:+ sep +:+ "[" +:+ lab +:+ "]" +:+ rest
    /\ httpURL u = true
    /\ nonempty sep = true /\ blank sep = true
    /\ nonempty lab = true
    /\ Str.all (fun a => negb (Ascii.eqb a "]")) lab = true
    /\ c = [u +:+ sep +:+ "[" +:+ lab +:+ "]"; u; lab].
Proof.
  unfold match_here, uploadResponseRegex. intros H.
  rewrite run_Concat, run_Capture in H. cbn [Lits] in H.
  rewrite !run_Concat in H.
  apply run_Lit_inv in H as (s1 & -> & H). rewrite ?run_Concat in H.
  apply run_Lit_inv in H as (s2 & -> & H). rewrite ?run_Concat in H.
  apply run_Lit_inv in H as (s3 & -> & H). rewrite ?run_Concat in H.
  apply run_Lit_inv in H as (s4 & -> & H). rewrite ?run_Concat in H.
  assert (exists scheme tok s5,
            (scheme = "http://" \/ scheme = "https://")
            /\ String "h" (String "t" (String "t" (String "p" s4)))
               = (scheme +:+ tok) +:+ s5
            /\ nonempty tok = true /\ spaceless tok = true
            /\ run (Concat (Plus isSpace)
                      (Concat (Lit "[")
                         (Concat (Capture 2 (Plus notBracket)) (Lit "]"))))
                 s5 (<[1 := scheme +:+ tok]> (replicate 3 ""))
                 (fun s6 c6 =>
                    Some (s6,
                          <[0 := Str.take
                                   (String.length ((scheme +:+ tok) +:+ s5)
                                    - String.length s6)
                                   ((scheme +:+ tok) +:+ s5)]> c6))
              = Some (rest, c))
    as (scheme & tok & s5 & Hscheme & E & Ht1 & Ht2 & H').
  { apply run_Quest_inv in H as [H|H].
    - apply run_Lit_inv in H as (s' & -> & H). rewrite ?run_Concat in H.
      apply run_Lit_inv in H as (? & -> & H). rewrite ?run_Concat in H.
      apply run_Lit_inv in H as (? & -> & H). rewrite ?run_Concat in H.
      apply run_Lit_inv in H as (? & -> & H).
      apply run_Plus_inv in H as (tok & s5 & -> & Ht1 & Ht2 & H).
      exists "https://", tok, s5. split; [by right |]. split; [done |].
      split; [done |]. split; [by apply all_notSpace |].
      cbv beta in H.
      change (String "h" _) with (("https://" +:+ tok) +:+ s5) in H.
      by rewrite Str_take_consumed in H.
    - rewrite ?run_Concat in H.
      apply run_Lit_inv in H as (? & -> & H). rewrite ?run_Concat in H.
      apply run_Lit_inv in H as (? & -> & H). rewrite ?run_Concat in H.
      apply run_Lit_inv in H as (? & -> & H).
      apply run_Plus_inv in H as (tok & s5 & -> & Ht1 & Ht2 & H).
      exists "http://", tok, s5. split; [by left |]. split; [done |].
      split; [done |]. split; [by apply all_notSpace |].
      cbv beta in H.
      change (String "h" _) with (("http://" +:+ tok) +:+ s5) in H.
      by rewrite Str_take_consumed in H. }
  rewrite E. clear E H. rename H' into H.
  rewrite run_Concat in H.
  apply run_Plus_inv in H as (sep & s6 & -> & Hs1 & Hs2 & H).
  rewrite run_Concat in H. apply run_Lit_inv in H as (s7 & -> & H).
  rewrite run_Concat, run_Capture in H.
  apply run_Plus_inv in H as (lab & s8 & -> & Hl1 & Hl2 & H).
  rewrite Str_take_consumed in H. apply run_Lit_inv in H as (s9 & -> & H).
  injection H as <- <-.
  exists (scheme +:+ tok), sep, lab.
  split; [by rewrite !Str_app_assoc |].
  split; [destruct Hscheme as [-> | ->]; by apply httpURL_intro |].
  split; [done |]. split; [by apply all_isSpace |]. split; [done |].
  split; [by apply all_notBracket |].
  assert ((scheme +:+ tok) +:+ sep +:+ String "[" (lab +:+ String "]" s9)
          = ((scheme +:+ tok) +:+ sep +:+ "[" +:+ lab +:+ "]") +:+ s9) as ->.
  { by rewrite !Str_app_assoc. }
  by rewrite Str_take_consumed.
Qed.

Lemma labelledIn_prefix p body u lab :
  labelledIn body u lab -> labelledIn (p +:+ body) u lab.
Proof.
  intros (pre & sep & rest & -> & ? & ?). exists (p +:+ pre), sep, rest.
  split; [by rewrite Str_app_assoc | done].
Qed.

(** Every match the loop delivers for the upload pattern is a URL, white
    space and a bracketed label standing in the text. *)
Lemma allMatches_upload_sound fuel : forall cur prev,
  Forall (fun m => exists whole u lab,
            m = [whole; u; lab] /\ httpURL u = true
            /\ nonempty lab = true /\ labelledIn cur u lab)
    (allMatches fuel uploadResponseRegex cur prev).
Proof.
  induction fuel as [|fuel IH]; intros cur prev; [by constructor |].
  rewrite allMatches_consumes by done.
  destruct (doExecute uploadResponseRegex cur) as [[[start rest] c]|] eqn:E;
    [| by constructor].
  apply doExecute_inv in E as (pre & -> & E).
  apply match_here_upload_inv in E
    as (u & sep & lab & -> & Hu & Hs1 & Hs2 & Hl1 & Hl2 & ->).
  constructor.
  - eexists _, u, lab. split; [done |]. split; [done |]. split; [done |].
    by exists pre, sep, rest.
  - eapply Forall_impl; [apply IH |]. cbv beta.
    intros m (w' & u' & lab' & Hm & Hu' & Hl' & Hin). exists w', u', lab'.
    split; [done |]. split; [done |]. split; [done |].
    apply labelledIn_prefix.
    replace (u +:+ sep +:+ "[" +:+ lab +:+ "]" +:+ rest)
      with ((u +:+ sep +:+ "[" +:+ lab +:+ "]") +:+ rest)
      by (by rewrite !Str_app_assoc).
    by apply labelledIn_prefix.
Qed.

Lemma lastLabelled_elem lab (ms : list (list string)) u :
  lastLabelled lab ms = Some u ->
  exists m, m ∈ ms /\ lower (m !!! 2) = lab /\ m !!! 1 = u.
Proof.
  induction ms as [|m ms IH]; [done |]. cbn [lastLabelled].
  destruct (lastLabelled lab ms) as [u'|].
  - intros [= ->]. destruct IH as (m' & ? & ? & ?); [done |].
    exists m'. split; [by right | done].
  - case_decide; [| done]. intros [= <-].
    exists m. split; [by left | done].
Qed.

Lemma field_sound body lab :
  match lastLabelled lab (FindAllStringSubmatch uploadResponseRegex body) with
  | None => True
  | Some u =>
      httpURL u = true
      /\ exists label, lower label = lab /\ labelledIn body u label
  end.
Proof.
  destruct (lastLabelled lab _) as [u|] eqn:E; [| done].
  apply lastLabelled_elem in E as (m & Hm & Hlab & Hu).
  pose proof (allMatches_upload_sound (S (String.length body)) body None)
    as Hall.
  rewrite Forall_forall in Hall. apply Hall in Hm.
  destruct Hm as (w' & u' & lab' & -> & Hu' & _ & Hin).
  cbn in Hlab, Hu. subst u'. split; [done |]. by exists lab'.
Qed.

(** X1. Whatever the body, a field of the result is either empty or a URL
    that starts with [http://] or [https://], goes on with at least one
    character and holds no white space, and that stands in the body in
    front of white space and a bracketed label which lower-cases to the
    name of the field. *)
Theorem parseUploadResponse_fields_sound (body : string) :
  let r := parseUploadResponse body in
  (Admin r = ""
   \/ httpURL (Admin r) = true
      /\ exists label, lower label = "admin"
                       /\ labelledIn body (Admin r) label)
  /\ (Download r = ""
      \/ httpURL (Download r) = true
         /\ exists label, lower label = "download"
                          /\ labelledIn body (Download r) label)
  /\ (TorDownload r = ""
      \/ httpURL (TorDownload r) = true
         /\ exists label, lower label = "tor download"
                          /\ labelledIn body (TorDownload r) label).
Proof.
  cbv zeta. rewrite parseUploadResponse_fields. cbv zeta.
  cbn [Admin Download TorDownload].
  pose proof (field_sound body "admin") as Ha.
  pose proof (field_sound body "download") as Hd.
  pose proof (field_sound body "tor download") as Ht.
  destruct (lastLabelled "admin" _), (lastLabelled "download" _),
    (lastLabelled "tor download" _); simpl; auto.
Qed.

Lemma fold_indexed `(step : A -> string -> string -> A)
    (ms : list (list string)) (acc : A) :
  Forall (fun m => length m = 3) ms ->
  fold_left
    (fun running m =>
       match running with
       | None => None
       | Some acc =>
           match m !! 1 with
           | None => None
           | Some url =>
               match m !! 2 with
               | None => None
               | Some text => Some (step acc url text)
               end
           end
       end)
    ms (Some acc)
  = Some (fold_left (fun acc m => step acc (m !!! 1) (m !!! 2)) ms acc).
Proof.
  intros Hms. revert acc.
  induction Hms as [|m ms Hm _ IH]; intros acc; [done |].
  destruct m as [|whole [|url [|text [|? ?]]]]; try done.
  cbn [fold_left]. apply IH.
Qed.

(** X2. Neither parser can index out of range.  With [match[1]],
    [match[2]], [matches[2]] and [matches[1]] evaluated as Go evaluates
    them, where an index past the end is a panic, both parsers return for
    every body, and they return what [parseUploadResponse] and
    [parseHashsumResponse] return. *)
Theorem parsers_index_in_range (body : string) :
  parseUploadResponse_indexed body = Some (parseUploadResponse body)
  /\ parseHashsumResponse_indexed body = Some (parseHashsumResponse body).
Proof.
  split.
  - unfold parseUploadResponse_indexed, parseUploadResponse. cbv zeta.
    pose proof (FindAllStringSubmatch_length uploadResponseRegex body) as Hms.
    change (S (NumSubexp uploadResponseRegex)) with 3 in Hms.
    exact (fold_indexed
             (fun response url text =>
                if decide (lower text = "admin") then
                  {| Admin := url;
                     Download := Download response;
                     TorDownload := TorDownload response |}
                else if decide (lower text = "download") then
                  {| Admin := Admin response;
                     Download := url;
                     TorDownload := TorDownload response |}
                else if decide (lower text = "tor download") then
                  {| Admin := Admin response;
                     Download := Download response;
                     TorDownload := url |}
                else response)
             _ _ Hms).
  - unfold parseHashsumResponse_indexed, parseHashsumResponse. cbv zeta.
    destruct (FindStringSubmatch_length hashsumResponseRegex body) as [E|E].
    + by rewrite E.
    + change (S (NumSubexp hashsumResponseRegex)) with 3 in E.
      destruct (FindStringSubmatch hashsumResponseRegex body)
        as [|whole [|hash [|algorithm [|? ?]]]]; done.
Qed.

(** X3. The hashsum parser gives all or nothing.  Either the pattern
    matches nowhere in the body, and the result is the zero value with
    the wrong-response error; or the body holds an alphanumeric
    token, white space and a parenthesized text without []],
    and the result is that token as hashsum and that text as algorithm,
    both with at least one character, and no error. *)
Theorem parseHashsumResponse_all_or_nothing (body : string) :
  (doExecute hashsumResponseRegex body = None
   /\ parseHashsumResponse body
      = ({| Algorithm := ""; Hashsum := "" |},
         Some (Errorf_w_s ErrWrongResponse body)))
  \/ (exists pre hash sep alg rest,
        body = pre +:+ hash +:+ sep +:+ "(" +:+ alg +:+ ")" +:+ rest
        /\ nonempty hash = true /\ Str.all alnum hash = true
        /\ nonempty sep = true /\ blank sep = true
        /\ nonempty alg = true
        /\ Str.all (fun a => negb (Ascii.eqb a "]")) alg = true
        /\ parseHashsumResponse body
           = ({| Algorithm := alg; Hashsum := hash |}, None)).
Proof.
  unfold parseHashsumResponse, FindStringSubmatch. cbv zeta.
  destruct (doExecute hashsumResponseRegex body) as [[[start rest] c]|] eqn:E;
    [right | by left].
  apply doExecute_inv in E as (pre & -> & E).
  apply match_here_hashsum_inv in E
    as (hash & sep & alg & -> & ? & ? & ? & ? & ? & ? & ->).
  exists pre, hash, sep, alg, rest. by repeat split.
Qed.

Lemma match_here_hashsum_not_alnum a s :
  alnum a = false -> match_here hashsumResponseRegex (String a s) = None.
Proof.
  intros Ha. unfold match_here, hashsumResponseRegex.
  rewrite run_Concat, run_Capture. cbn [run]. fold (alnum a). by rewrite Ha.
Qed.

Lemma doExecute_hashsum_skip junk s :
  Str.all (fun a => negb (alnum a)) junk = true ->
  doExecute hashsumResponseRegex (junk +:+ s)
  = doExecute hashsumResponseRegex s.
Proof.
  intros Hj. induction junk as [|a junk IH]; [done |].
  simpl in Hj. apply andb_prop in Hj as [Ha Hj].
  cbn [String.append doExecute].
  rewrite match_here_hashsum_not_alnum by (by destruct (alnum a)).
  by apply IH.
Qed.

(** X4. A body of the expected shape parses: after any text without a
    letter or digit, an alphanumeric token of at least one character,
    white space of at least one character and a parenthesized text give
    the token as hashsum and the text as algorithm, provided the text has
    at least one character and no []], and what follows its closing [)]
    holds no [)] and no []].  The text may hold parentheses of its own. *)
Theorem parseHashsumResponse_well_formed
    (junk hash sep alg tail : string) :
  Str.all (fun a => negb (alnum a)) junk = true ->
  nonempty hash = true -> Str.all alnum hash = true ->
  nonempty sep = true -> blank sep = true ->
  nonempty alg = true ->
  Str.all (fun a => negb (Ascii.eqb a "]")) alg = true ->
  Str.all (fun a => negb (Ascii.eqb a "]") && negb (Ascii.eqb a ")")) tail
  = true ->
  parseHashsumResponse
    (junk +:+ hash +:+ sep +:+ "(" +:+ alg +:+ ")" +:+ tail)
  = ({| Algorithm := alg; Hashsum := hash |}, None).
Proof.
  intros Hj Hh1 Hh2 Hs1 Hs2 Ha1 Ha2 Ht.
  unfold parseHashsumResponse, FindStringSubmatch. cbv zeta.
  rewrite doExecute_hashsum_skip by done.
  destruct hash as [|a hash]; [done |]. cbn [String.append doExecute].
  change (String a (hash +:+ sep +:+ String "(" (alg +:+ String ")" tail)))
    with (String a hash +:+ sep +:+ "(" +:+ alg +:+ ")" +:+ tail).
  by rewrite match_here_hashsum.
Qed.

(** ** The operations when something fails *)

Lemma errors_Is_refl err : errors_Is err err = true.
Proof. destruct err; simpl; by rewrite bool_decide_eq_true_2. Qed.

Lemma Errorf_w_wraps cause : wraps (Errorf_w cause) cause.
Proof.
  split; [done |]. split; [| split; [done | by intros e]].
  unfold Errorf_w. cbn [errors_Is]. by rewrite errors_Is_refl, orb_true_r.
Qed.

Lemma Upload_unfold ctx img c :
  fst (Upload ctx img c)
  = match fst (prepareUploadURL img c) with
    | (_, Some err) =>
        ({| Admin := ""; Download := ""; TorDownload := "" |},
         Some (Errorf_w err))
    | (u, None) =>
        match http_NewRequestWithContext ctx http.MethodPut u
                (Some (Image.file img)) with
        | Fail err =>
            ({| Admin := ""; Download := ""; TorDownload := "" |},
             Some (Errorf_w err))
        | Ok req =>
            match httpClient c req with
            | Fail err =>
                ({| Admin := ""; Download := ""; TorDownload := "" |},
                 Some (Errorf_w err))
            | Ok resp =>
                match http.ReadAll_Body resp with
                | Fail err =>
                    ({| Admin := ""; Download := ""; TorDownload := "" |},
                     Some (Errorf_w err))
                | Ok body =>
                    if decide (http.StatusCode resp <> http.StatusOK)
                    then ({| Admin := ""; Download := "";
                             TorDownload := "" |},
                          Some (statusError resp body))
                    else (parseUploadResponse body, None)
                end
            end
        end
    end.
Proof.
  unfold Upload, bind.
  pose proof (readOnly_prepareUploadURL img c) as Hc.
  destruct (prepareUploadURL img c) as [[u err] c']. simpl in Hc. subst c'.
  cbn [fst]. destruct err as [err|]; [done |]. unfold gets, ret.
  destruct (http_NewRequestWithContext _ _ _ _) as [req|]; [| done]. cbn.
  destruct (httpClient c req) as [resp|]; [| done].
  destruct (http.ReadAll_Body resp); [| done]. by case_decide.
Qed.

Lemma GetHashsum_unfold ctx file c :
  fst (GetHashsum ctx file c)
  = let zero := {| Algorithm := ""; Hashsum := "" |} in
    match url_JoinPath (endpoint c) [hashsum; file] with
    | Fail err => (zero, Some (Errorf_w err))
    | Ok u =>
        match http_NewRequestWithContext ctx http.MethodGet u None with
        | Fail err => (zero, Some (Errorf_w err))
        | Ok req =>
            match httpClient c req with
            | Fail err => (zero, Some (Errorf_w err))
            | Ok resp =>
                match http.ReadAll_Body resp with
                | Fail err => (zero, Some (Errorf_w err))
                | Ok body =>
                    if decide (http.StatusCode resp <> http.StatusOK)
                    then (zero, Some (statusError resp body))
                    else parseHashsumResponse body
                end
            end
        end
    end.
Proof.
  unfold GetHashsum, bind, gets, ret. cbn.
  destruct (url_JoinPath _ _) as [u|]; [| done].
  destruct (http_NewRequestWithContext _ _ _ _) as [req|]; [| done]. cbn.
  destruct (httpClient c req) as [resp|]; [| done].
  destruct (http.ReadAll_Body resp); [| done]. by case_decide.
Qed.

Lemma GetTorEndpoint_unfold ctx c :
  fst (GetTorEndpoint ctx c)
  = match url_JoinPath (endpoint c) [onion] with
    | Fail err => ("", Some (Errorf_w err))
    | Ok u =>
        match http_NewRequestWithContext ctx http.MethodGet u None with
        | Fail err => ("", Some (Errorf_w err))
        | Ok req =>
            match httpClient c req with
            | Fail err => ("", Some (Errorf_w err))
            | Ok resp =>
                match http.ReadAll_Body resp with
                | Fail err => ("", Some (Errorf_w err))
                | Ok body =>
                    if decide (http.StatusCode resp <> http.StatusOK)
                    then ("", Some (statusError resp body))
                    else (body, None)
                end
            end
        end
    end.
Proof.
  unfold GetTorEndpoint, bind, gets, ret. cbn.
  destruct (url_JoinPath _ _) as [u|]; [| done].
  destruct (http_NewRequestWithContext _ _ _ _) as [req|]; [| done]. cbn.
  destruct (httpClient c req) as [resp|]; [| done].
  destruct (http.ReadAll_Body resp); [| done]. by case_decide.
Qed.

Lemma Delete_unfold ctx adminURL c :
  fst (Delete ctx adminURL c)
  = match http_NewRequestWithContext ctx http.MethodDelete adminURL None with
    | Fail err => Some (Errorf_w err)
    | Ok req =>
        match httpClient c req with
        | Fail err => Some (Errorf_w err)
        | Ok resp =>
            if decide (http.StatusCode resp <> http.StatusOK)
            then match http.ReadAll_Body resp with
                 | Fail err => Some (Errorf_w err)
                 | Ok body => Some (statusError resp body)
                 end
            else None
        end
    end.
Proof.
  unfold Delete, bind, gets, ret.
  destruct (http_NewRequestWithContext _ _ _ _) as [req|]; [| done]. cbn.
  destruct (httpClient c req) as [resp|]; [| done].
  case_decide; [| done]. by destruct (http.ReadAll_Body resp).
Qed.

(** X5. When the transport fails on the request of an operation, that
    operation returns the zero value of its result and the transport's
    error wrapped once: the wrapped error is found by [errors.Is], reads
    the same, and is not a status error.  This holds for each of the four
    operations on its own, whatever the transport does with other
    requests. *)
Theorem transport_failure_is_wrapped :
  (forall (c : Client) (ctx : context_Context) (img : Image) (u : string)
          (req : http.Request context_Context) (cause : error),
      fst (prepareUploadURL img c) = (u, None) ->
      http_NewRequestWithContext ctx http.MethodPut u
        (Some (Image.file img)) = Ok req ->
      httpClient c req = Fail cause ->
      exists err,
        fst (Upload ctx img c)
        = ({| Admin := ""; Download := ""; TorDownload := "" |}, Some err)
        /\ wraps err cause)
  /\ (forall (c : Client) (ctx : context_Context) (file u : string)
             (req : http.Request context_Context) (cause : error),
         url_JoinPath (endpoint c) [hashsum; file] = Ok u ->
         http_NewRequestWithContext ctx http.MethodGet u None = Ok req ->
         httpClient c req = Fail cause ->
         exists err,
           fst (GetHashsum ctx file c)
           = ({| Algorithm := ""; Hashsum := "" |}, Some err)
           /\ wraps err cause)
  /\ (forall (c : Client) (ctx : context_Context) (adminURL : string)
             (req : http.Request context_Context) (cause : error),
         http_NewRequestWithContext ctx http.MethodDelete adminURL None
         = Ok req ->
         httpClient c req = Fail cause ->
         exists err,
           fst (Delete ctx adminURL c) = Some err /\ wraps err cause)
  /\ (forall (c : Client) (ctx : context_Context) (u : string)
             (req : http.Request context_Context) (cause : error),
         url_JoinPath (endpoint c) [onion] = Ok u ->
         http_NewRequestWithContext ctx http.MethodGet u None = Ok req ->
         httpClient c req = Fail cause ->
         exists err,
           fst (GetTorEndpoint ctx c) = ("", Some err) /\ wraps err cause).
Proof.
  split; [| split; [| split]].
  - intros c ctx img u req cause H1 H2 H3.
    rewrite Upload_unfold, H1, H2, H3.
    eexists. split; [done | apply Errorf_w_wraps].
  - intros c ctx file u req cause H1 H2 H3.
    rewrite GetHashsum_unfold, H1, H2, H3. cbv zeta.
    eexists. split; [done | apply Errorf_w_wraps].
  - intros c ctx adminURL req cause H2 H3.
    rewrite Delete_unfold, H2, H3.
    eexists. split; [done | apply Errorf_w_wraps].
  - intros c ctx u req cause H1 H2 H3.
    rewrite GetTorEndpoint_unfold, H1, H2, H3.
    eexists. split; [done | apply Errorf_w_wraps].
Qed.

(** X6. When the body of the response to an operation cannot be read,
    [Upload], [GetHashsum] and [GetTorEndpoint] return the zero value and
    the wrapped read error whatever the status, 200 included; [Delete]
    reads the body only for a status other than 200, and then returns the
    wrapped read error in place of the status error.  This holds for each
    operation on its own. *)
Theorem unreadable_body_is_wrapped :
  (forall (c : Client) (ctx : context_Context) (img : Image) (u : string)
          (req : http.Request context_Context) (resp : http.Response)
          (cause : error),
      fst (prepareUploadURL img c) = (u, None) ->
      http_NewRequestWithContext ctx http.MethodPut u
        (Some (Image.file img)) = Ok req ->
      httpClient c req = Ok resp ->
      http.ReadAll_Body resp = Fail cause ->
      exists err,
        fst (Upload ctx img c)
        = ({| Admin := ""; Download := ""; TorDownload := "" |}, Some err)
        /\ wraps err cause)
  /\ (forall (c : Client) (ctx : context_Context) (file u : string)
             (req : http.Request context_Context) (resp : http.Response)
             (cause : error),
         url_JoinPath (endpoint c) [hashsum; file] = Ok u ->
         http_NewRequestWithContext ctx http.MethodGet u None = Ok req ->
         httpClient c req = Ok resp ->
         http.ReadAll_Body resp = Fail cause ->
         exists err,
           fst (GetHashsum ctx file c)
           = ({| Algorithm := ""; Hashsum := "" |}, Some err)
           /\ wraps err cause)
  /\ (forall (c : Client) (ctx : context_Context) (adminURL : string)
             (req : http.Request context_Context) (resp : http.Response)
             (cause : error),
         http_NewRequestWithContext ctx http.MethodDelete adminURL None
         = Ok req ->
         httpClient c req = Ok resp ->
         http.ReadAll_Body resp = Fail cause ->
         http.StatusCode resp <> http.StatusOK ->
         exists err,
           fst (Delete ctx adminURL c) = Some err /\ wraps err cause)
  /\ (forall (c : Client) (ctx : context_Context) (u : string)
             (req : http.Request context_Context) (resp : http.Response)
             (cause : error),
         url_JoinPath (endpoint c) [onion] = Ok u ->
         http_NewRequestWithContext ctx http.MethodGet u None = Ok req ->
         httpClient c req = Ok resp ->
         http.ReadAll_Body resp = Fail cause ->
         exists err,
           fst (GetTorEndpoint ctx c) = ("", Some err) /\ wraps err cause).
Proof.
  split; [| split; [| split]].
  - intros c ctx img u req resp cause H1 H2 H3 H4.
    rewrite Upload_unfold, H1, H2, H3, H4.
    eexists. split; [done | apply Errorf_w_wraps].
  - intros c ctx file u req resp cause H1 H2 H3 H4.
    rewrite GetHashsum_unfold, H1, H2, H3, H4. cbv zeta.
    eexists. split; [done | apply Errorf_w_wraps].
  - intros c ctx adminURL req resp cause H2 H3 H4 H5.
    rewrite Delete_unfold, H2, H3, H4. rewrite decide_True by done.
    eexists. split; [done | apply Errorf_w_wraps].
  - intros c ctx u req resp cause H1 H2 H3 H4.
    rewrite GetTorEndpoint_unfold, H1, H2, H3, H4.
    eexists. split; [done | apply Errorf_w_wraps].
Qed.

(** X7. On a 200 response [Delete] returns [nil] at once: the body plays
    no part, whether it can be read or not and whatever it says. *)
Theorem Delete_ok_ignores_body
    (c : Client) (ctx : context_Context) (adminURL : string)
    (req : http.Request context_Context) (status : Z)
    (body : result string) :
  http_NewRequestWithContext ctx http.MethodDelete adminURL None = Ok req ->
  httpClient c req
  = Ok {| http.StatusCode := status; http.ReadAll_Body := body |} ->
  status = http.StatusOK ->
  fst (Delete ctx adminURL c) = None /\ snd (Delete ctx adminURL c) = c.
Proof.
  intros H1 H2 ->. split; [| apply readOnly_Delete].
  rewrite Delete_unfold, H1, H2. cbn [http.StatusCode].
  by rewrite decide_False by (by intros ?).
Qed.

(** X8. [Delete] goes to the admin URL it is given and to nothing built
    from the endpoint: with another endpoint set on the client, it returns
    the same. *)
Theorem Delete_ignores_endpoint
    (c : Client) (ctx : context_Context) (adminURL endpoint' : string) :
  fst (Delete ctx adminURL (snd (WithEndpoint endpoint' c)))
  = fst (Delete ctx adminURL c)
  /\ httpClient (snd (WithEndpoint endpoint' c)) = httpClient c
  /\ endpoint (snd (WithEndpoint endpoint' c)) = endpoint'.
Proof.
  split; [| done]. rewrite !Delete_unfold.
  by destruct (http_NewRequestWithContext _ _ _ _).
Qed.

Lemma Upload_parse_failure ctx img c err :
  url_Parse (endpoint c) = Fail err ->
  fst (Upload ctx img c)
  = ({| Admin := ""; Download := ""; TorDownload := "" |},
     Some (Errorf_w (Errorf_w err))).
Proof.
  intros H. rewrite Upload_unfold.
  unfold prepareUploadURL, bind, gets, ret. cbn. by rewrite H.
Qed.

(** X9. When the URL of a request cannot be built from the endpoint, the
    operation returns the zero value and the error of [net/url]:
    [Upload] when [url.Parse] fails, with the error wrapped twice, once
    by [prepareUploadURL]; [GetHashsum] and [GetTorEndpoint] when
    [url.JoinPath] fails, with the error wrapped once.  The error is
    still found by [errors.Is], reads the same and is not a status error.
    Each operation is stated on its own, and for every transport: the
    transport is not asked. *)
Theorem unbuildable_url_is_wrapped :
  (forall (c : Client) (ctx : context_Context) (img : Image)
          (cause : error),
      url_Parse (endpoint c) = Fail cause ->
      exists err,
        fst (Upload ctx img c)
        = ({| Admin := ""; Download := ""; TorDownload := "" |}, Some err)
        /\ err = Errorf_w (Errorf_w cause)
        /\ errors_Is err cause = true
        /\ error_Error err = error_Error cause
        /\ forall e, err <> ptrError e)
  /\ (forall (c : Client) (ctx : context_Context) (file : string)
             (cause : error),
         url_JoinPath (endpoint c) [hashsum; file] = Fail cause ->
         exists err,
           fst (GetHashsum ctx file c)
           = ({| Algorithm := ""; Hashsum := "" |}, Some err)
           /\ wraps err cause)
  /\ (forall (c : Client) (ctx : context_Context) (cause : error),
         url_JoinPath (endpoint c) [onion] = Fail cause ->
         exists err,
           fst (GetTorEndpoint ctx c) = ("", Some err) /\ wraps err cause).
Proof.
  split; [| split].
  - intros c ctx img cause H.
    rewrite (Upload_parse_failure ctx img c cause) by done.
    eexists. split; [done |]. split; [done |].
    split; [| split; [done | by intros e]].
    unfold Errorf_w. cbn [errors_Is].
    by rewrite errors_Is_refl, !orb_true_r.
  - intros c ctx file cause H. rewrite GetHashsum_unfold, H. cbv zeta.
    eexists. split; [done | apply Errorf_w_wraps].
  - intros c ctx cause H. rewrite GetTorEndpoint_unfold, H.
    eexists. split; [done | apply Errorf_w_wraps].
Qed.

(** X10. When [http.NewRequestWithContext] refuses the request of an
    operation, that operation returns the zero value and that error
    wrapped once.  Each operation is stated on its own, and for every
    transport: the transport is not asked. *)
Theorem unbuildable_request_is_wrapped :
  (forall (c : Client) (ctx : context_Context) (img : Image) (u : string)
          (cause : error),
      fst (prepareUploadURL img c) = (u, None) ->
      http_NewRequestWithContext ctx http.MethodPut u
        (Some (Image.file img)) = Fail cause ->
      exists err,
        fst (Upload ctx img c)
        = ({| Admin := ""; Download := ""; TorDownload := "" |}, Some err)
        /\ wraps err cause)
  /\ (forall (c : Client) (ctx : context_Context) (file u : string)
             (cause : error),
         url_JoinPath (endpoint c) [hashsum; file] = Ok u ->
         http_NewRequestWithContext ctx http.MethodGet u None
         = Fail cause ->
         exists err,
           fst (GetHashsum ctx file c)
           = ({| Algorithm := ""; Hashsum := "" |}, Some err)
           /\ wraps err cause)
  /\ (forall (c : Client) (ctx : context_Context) (adminURL : string)
             (cause : error),
         http_NewRequestWithContext ctx http.MethodDelete adminURL None
         = Fail cause ->
         exists err,
           fst (Delete ctx adminURL c) = Some err /\ wraps err cause)
  /\ (forall (c : Client) (ctx : context_Context) (u : string)
             (cause : error),
         url_JoinPath (endpoint c) [onion] = Ok u ->
         http_NewRequestWithContext ctx http.MethodGet u None
         = Fail cause ->
         exists err,
           fst (GetTorEndpoint ctx c) = ("", Some err) /\ wraps err cause).
Proof.
  split; [| split; [| split]].
  - intros c ctx img u cause H1 H2. rewrite Upload_unfold, H1, H2.
    eexists. split; [done | apply Errorf_w_wraps].
  - intros c ctx file u cause H1 H2.
    rewrite GetHashsum_unfold, H1, H2. cbv zeta.
    eexists. split; [done | apply Errorf_w_wraps].
  - intros c ctx adminURL cause H2. rewrite Delete_unfold, H2.
    eexists. split; [done | apply Errorf_w_wraps].
  - intros c ctx u cause H1 H2. rewrite GetTorEndpoint_unfold, H1, H2.
    eexists. split; [done | apply Errorf_w_wraps].
Qed.

(** X11. An operation asks the transport about one request, the one it
    builds, and its result depends on the transport through the answer to
    that request and on nothing else: two runs of an operation whose
    requests are built and get the same answer return the same, whatever
    the clients, contexts and arguments of the two runs and whatever the
    transports do with other requests.  Each operation is stated on its
    own. *)
Theorem one_request_per_operation :
  (forall (c c' : Client) (ctx ctx' : context_Context) (img img' : Image)
          (u u' : string) (req req' : http.Request context_Context),
      fst (prepareUploadURL img c) = (u, None) ->
      http_NewRequestWithContext ctx http.MethodPut u
        (Some (Image.file img)) = Ok req ->
      fst (prepareUploadURL img' c') = (u', None) ->
      http_NewRequestWithContext ctx' http.MethodPut u'
        (Some (Image.file img')) = Ok req' ->
      httpClient c' req' = httpClient c req ->
      fst (Upload ctx' img' c') = fst (Upload ctx img c))
  /\ (forall (c c' : Client) (ctx ctx' : context_Context)
             (file file' u u' : string)
             (req req' : http.Request context_Context),
         url_JoinPath (endpoint c) [hashsum; file] = Ok u ->
         http_NewRequestWithContext ctx http.MethodGet u None = Ok req ->
         url_JoinPath (endpoint c') [hashsum; file'] = Ok u' ->
         http_NewRequestWithContext ctx' http.MethodGet u' None = Ok req' ->
         httpClient c' req' = httpClient c req ->
         fst (GetHashsum ctx' file' c') = fst (GetHashsum ctx file c))
  /\ (forall (c c' : Client) (ctx ctx' : context_Context)
             (adminURL adminURL' : string)
             (req req' : http.Request context_Context),
         http_NewRequestWithContext ctx http.MethodDelete adminURL None
         = Ok req ->
         http_NewRequestWithContext ctx' http.MethodDelete adminURL' None
         = Ok req' ->
         httpClient c' req' = httpClient c req ->
         fst (Delete ctx' adminURL' c') = fst (Delete ctx adminURL c))
  /\ (forall (c c' : Client) (ctx ctx' : context_Context) (u u' : string)
             (req req' : http.Request context_Context),
         url_JoinPath (endpoint c) [onion] = Ok u ->
         http_NewRequestWithContext ctx http.MethodGet u None = Ok req ->
         url_JoinPath (endpoint c') [onion] = Ok u' ->
         http_NewRequestWithContext ctx' http.MethodGet u' None = Ok req' ->
         httpClient c' req' = httpClient c req ->
         fst (GetTorEndpoint ctx' c') = fst (GetTorEndpoint ctx c)).
Proof.
  split; [| split; [| split]].
  - intros c c' ctx ctx' img img' u u' req req' H1 H2 H1' H2' E.
    rewrite !Upload_unfold. by rewrite H1, H2, H1', H2', E.
  - intros c c' ctx ctx' file file' u u' req req' H1 H2 H1' H2' E.
    rewrite !GetHashsum_unfold. by rewrite H1, H2, H1', H2', E.
  - intros c c' ctx ctx' adminURL adminURL' req req' H2 H2' E.
    rewrite !Delete_unfold. by rewrite H2, H2', E.
  - intros c c' ctx ctx' u u' req req' H1 H2 H1' H2' E.
    rewrite !GetTorEndpoint_unfold. by rewrite H1, H2, H1', H2', E.
Qed.

(** X12. On a 200 response [GetHashsum] returns what the parser makes of
    the body: no error exactly when the pattern matches somewhere in the
    body, and otherwise the zero value with an error that wraps
    [ErrWrongResponse], shows the body, and is not a status error. *)
Theorem GetHashsum_ok
    (c : Client) (ctx : context_Context) (file u : string)
    (req : http.Request context_Context) (resp : http.Response)
    (body : string) :
  url_JoinPath (endpoint c) [hashsum; file] = Ok u ->
  http_NewRequestWithContext ctx http.MethodGet u None = Ok req ->
  httpClient c req = Ok resp ->
  http.ReadAll_Body resp = Ok body ->
  http.StatusCode resp = http.StatusOK ->
  fst (GetHashsum ctx file c) = parseHashsumResponse body
  /\ (snd (fst (GetHashsum ctx file c)) = None
      <-> doExecute hashsumResponseRegex body <> None)
  /\ (doExecute hashsumResponseRegex body = None ->
      exists err,
        fst (GetHashsum ctx file c)
        = ({| Algorithm := ""; Hashsum := "" |}, Some err)
        /\ errors_Is err ErrWrongResponse = true
        /\ error_Error err = "wrong response: " +:+ body
        /\ forall e, err <> ptrError e).
Proof.
  intros H1 H2 H3 H4 H5.
  rewrite GetHashsum_unfold, H1, H2, H3, H4. cbv zeta.
  rewrite decide_False by (by intros ?).
  split; [done |]. unfold parseHashsumResponse, FindStringSubmatch. cbv zeta.
  destruct (doExecute hashsumResponseRegex body) as [[[start rest] m]|] eqn:E.
  - apply doExecute_length in E.
    change (S (NumSubexp hashsumResponseRegex)) with 3 in E.
    rewrite E. cbn. split; [done |]. by intros ?.
  - cbn. split; [split; [done | by intros []] |]. intros _.
    eexists. split; [done |]. by split.
Qed.

(** ** The message of a status error *)

Lemma string_of_uint_digits d :
  Str.all (fun a => negb (Ascii.eqb a ":")) (NilEmpty.string_of_uint d) = true.
Proof. induction d; simpl; done. Qed.

Lemma FormatInt_no_colon z :
  Str.all (fun a => negb (Ascii.eqb a ":")) (FormatInt z) = true.
Proof.
  unfold FormatInt, NilZero.string_of_int, NilZero.string_of_uint.
  destruct (Z.to_int z) as [d|d]; destruct d; simpl;
    try done; apply string_of_uint_digits.
Qed.

Lemma FormatInt_decimal z :
  Z.of_int <$> NilZero.int_of_string (FormatInt z) = Some z.
Proof.
  unfold FormatInt. rewrite NilZero.isi.
  - simpl. f_equal. apply DecimalZ.of_to.
  - destruct z; simpl; try done. intros [= H].
    by apply DecimalPos.Unsigned.to_uint_nonnil in H.
  - destruct z; simpl; try done. intros [= H].
    by apply DecimalPos.Unsigned.to_uint_nonnil in H.
Qed.

Lemma FormatInt_inj z1 z2 : FormatInt z1 = FormatInt z2 -> z1 = z2.
Proof.
  intros H. pose proof (FormatInt_decimal z1) as H1.
  rewrite H, FormatInt_decimal in H1. congruence.
Qed.

(** Two texts cut at their first [:] are equal part by part. *)
Lemma split_at_colon d1 : forall d2 r1 r2,
  Str.all (fun a => negb (Ascii.eqb a ":")) d1 = true ->
  Str.all (fun a => negb (Ascii.eqb a ":")) d2 = true ->
  d1 +:+ String ":" r1 = d2 +:+ String ":" r2 -> d1 = d2 /\ r1 = r2.
Proof.
  induction d1 as [|a d1 IH]; intros [|b d2] r1 r2 H1 H2 E;
    cbn [String.append] in E; simpl in H1, H2.
  - by injection E as ->.
  - injection E as <- _. by simpl in H2.
  - injection E as -> _. by simpl in H1.
  - injection E as -> E. apply andb_prop in H1 as [_ H1].
    apply andb_prop in H2 as [_ H2].
    destruct (IH d2 r1 r2 H1 H2 E) as [-> ->]. done.
Qed.

(** X13. The message of a status error is [Status], the status code in
    base 10 and the message, and it tells status errors apart: two of
    them read the same only when they have the same code and the same
    message. *)
Theorem Error_message (e e' : Error) :
  (exists digits,
     Error_Error e = "Status " +:+ digits +:+ ": " +:+ Message e
     /\ Z.of_int <$> NilZero.int_of_string digits = Some (StatusCode e))
  /\ (Error_Error e = Error_Error e' <-> e = e').
Proof.
  split.
  - exists (FormatInt (StatusCode e)). split; [done |].
    apply FormatInt_decimal.
  - split; [| by intros ->]. unfold Error_Error. intros E.
    cbn [String.append] in E. injection E as E.
    apply split_at_colon in E as [E1 E2]; try apply FormatInt_no_colon.
    apply FormatInt_inj in E1. injection E2 as E2.
    destruct e, e'. simpl in *. by subst.
Qed.

(** ** Responses in two parts *)

Lemma renderAll_app ls1 ls2 :
  renderAll (ls1 ++ ls2) = renderAll ls1 +:+ renderAll ls2.
Proof.
  induction ls1 as [|l ls1 IH]; [done |]. cbn [app renderAll].
  by rewrite IH, Str_app_assoc.
Qed.

Lemma httpURL_nonempty u : httpURL u = true -> nonempty u = true.
Proof. intros (tok & [-> | ->] & _)%httpURL_inv; done. Qed.

Lemma lastLabelled_nonempty lab (ls : list Line) u :
  forallb wellFormed ls = true ->
  lastLabelled lab (map matchOf ls) = Some u -> nonempty u = true.
Proof.
  rewrite forallb_elem_of. intros Hls (l & Hl & _ & <-)%lastLabelled_sound.
  apply httpURL_nonempty. by apply Hls, wellFormed_inv in Hl as (? & _).
Qed.

(** X14. A body in two parts, each made of well-formed lines, parses to the
    result of the second part laid over the result of the first: a field
    comes from the second part when that part fills it, and from the
    first otherwise. *)
Theorem parseUploadResponse_two_parts
    (ws : string) (ls1 ls2 : list Line) :
  blank ws = true ->
  forallb wellFormed ls1 = true -> forallb wellFormed ls2 = true ->
  parseUploadResponse ((ws +:+ renderAll ls1) +:+ renderAll ls2)
  = overlay (parseUploadResponse (ws +:+ renderAll ls1))
      (parseUploadResponse (renderAll ls2)).
Proof.
  intros Hws H1 H2.
  assert (forallb wellFormed (ls1 ++ ls2) = true) as H12
    by (by rewrite forallb_app, H1, H2).
  rewrite Str_app_assoc, <- renderAll_app.
  rewrite (parseUploadResponse_rendered ws (ls1 ++ ls2)) by done.
  rewrite (parseUploadResponse_rendered ws ls1) by done.
  change (renderAll ls2) with ("" +:+ renderAll ls2).
  rewrite (parseUploadResponse_rendered "" ls2) by done.
  rewrite map_app, !lastLabelled_app. unfold overlay.
  cbn [Admin Download TorDownload].
  pose proof (lastLabelled_nonempty "admin" ls2) as Na.
  pose proof (lastLabelled_nonempty "download" ls2) as Nd.
  pose proof (lastLabelled_nonempty "tor download" ls2) as Nt.
  destruct (lastLabelled "admin" (map matchOf ls2)) as [ua|];
    destruct (lastLabelled "download" (map matchOf ls2)) as [ud|];
    destruct (lastLabelled "tor download" (map matchOf ls2)) as [ut|];
    cbn [default from_option id];
    rewrite ?(Na _ H2 eq_refl), ?(Nd _ H2 eq_refl), ?(Nt _ H2 eq_refl);
    done.
Qed.

(** ** The file identifier of a download URL *)

Lemma strings_Split_nonempty s sep : strings_Split s sep <> [].
Proof.
  induction s as [|a s IH]; simpl; [done |].
  destruct (Ascii.eqb a sep); [done |]. by destruct (strings_Split s sep).
Qed.

Lemma strings_Split_part part sep rest :
  Str.all (fun a => negb (Ascii.eqb a sep)) part = true ->
  strings_Split (part +:+ String sep rest) sep
  = part :: strings_Split rest sep.
Proof.
  induction part as [|a part IH]; simpl.
  - intros _. by rewrite Ascii.eqb_refl.
  - intros [Ha Hp]%andb_prop. rewrite IH by done.
    by destruct (Ascii.eqb a sep).
Qed.

Lemma strings_Split_last part sep :
  Str.all (fun a => negb (Ascii.eqb a sep)) part = true ->
  strings_Split part sep = [part].
Proof.
  induction part as [|a part IH]; simpl; [done |].
  intros [Ha Hp]%andb_prop. rewrite IH by done.
  by destruct (Ascii.eqb a sep).
Qed.

Lemma strings_Split_length s sep :
  length (strings_Split s sep) = S (strings_Count s sep).
Proof.
  induction s as [|a s IH]; simpl; [done |].
  destruct (Ascii.eqb a sep); simpl; [by rewrite IH |].
  pose proof (strings_Split_nonempty s sep).
  by destruct (strings_Split s sep).
Qed.

(** X15. Cutting a download URL at its slashes and taking the part of
    index 3, as the tests do, gives the path segment after the host:
    for [scheme://host/id] and for [scheme://host/id/more] it is [id].
    A text with fewer than three slashes has no such part and the index
    is out of range; this is so for the Download field parsed from a body
    the upload pattern cannot match in. *)
Theorem fileID_of_download (scheme host id more short body : string) :
  Str.all (fun a => negb (Ascii.eqb a "/")) scheme = true ->
  Str.all (fun a => negb (Ascii.eqb a "/")) host = true ->
  Str.all (fun a => negb (Ascii.eqb a "/")) id = true ->
  strings_Count short "/" < 3 ->
  shapeless body = true ->
  fileID (scheme +:+ "//" +:+ host +:+ "/" +:+ id) = Some id
  /\ fileID (scheme +:+ "//" +:+ host +:+ "/" +:+ id +:+ "/" +:+ more)
     = Some id
  /\ fileID short = None
  /\ fileID (Download (parseUploadResponse body)) = None.
Proof.
  intros Hs Hh Hi Hshort Hbody. unfold fileID. cbn [String.append].
  rewrite !strings_Split_part by done.
  change (strings_Split (String "/" ?x) "/")
    with (EmptyString :: strings_Split x "/").
  cbn [strings_Split Ascii.eqb].
  rewrite !strings_Split_part by done. rewrite strings_Split_last by done.
  split; [done |]. split; [done |]. split.
  - apply lookup_ge_None_2. rewrite strings_Split_length. lia.
  - by rewrite parseUploadResponse_shapeless.
Qed.

End Facts.

(** * The statements at concrete inputs *)

Lemma parseUploadResponse_three_lines_witness :
  parseUploadResponse (RT := stubRuntime)
    (" " +:+ renderAll [torLine; adminLine; downloadLine])
  = {| Admin := "http://a/1";
       Download := "http://a/2";
       TorDownload := "http://a/3" |}
  /\ parseUploadResponse (RT := stubRuntime)
       ("" +:+ renderAll ([otherLine] ++ downloadLine :: [otherLine]))
     = {| Admin := ""; Download := "http://a/2"; TorDownload := "" |}.
Proof.
  apply (parseUploadResponse_three_lines (RT := stubRuntime)
           " " adminLine downloadLine torLine
           [torLine; adminLine; downloadLine]
           "" downloadLine [otherLine] [otherLine]);
    try reflexivity.
  apply (Permutation_cons_append [adminLine; downloadLine]).
Defined.

Lemma parseHashsumResponse_strict_witness :
  parseHashsumResponse "deadbeef (sha256)"
  = ({| Algorithm := "sha256"; Hashsum := "deadbeef" |}, None)
  /\ (exists err,
        parseHashsumResponse "deadbeef sha256"
        = ({| Algorithm := ""; Hashsum := "" |}, Some err)
        /\ errors_Is err ErrWrongResponse = true
        /\ error_Error err = "wrong response: " +:+ "deadbeef sha256")
  /\ (exists err,
        parseHashsumResponse "deadbeef"
        = ({| Algorithm := ""; Hashsum := "" |}, Some err)
        /\ errors_Is err ErrWrongResponse = true
        /\ error_Error err = "wrong response: " +:+ "deadbeef").
Proof.
  apply (parseHashsumResponse_strict "deadbeef sha256" "deadbeef");
    [vm_compute; lia | reflexivity].
Defined.

Lemma prepareUploadURL_query_witness :
  exists query : url.Values,
    fst (prepareUploadURL (RT := stubRuntime) exampleImage (stubClient 200 ""))
    = (@URL_String stubRuntime
         {| url.rest := defaultEndpoint;
            url.RawQuery := @Values_Encode stubRuntime query |}, None)
    /\ query !! filename = Some ["name_test"]
    /\ query !! expire = Some ["5"]
    /\ query !! autodestroy = Some ["1"]
    /\ query !! randomizefn = None
    /\ query !! shorturl = None.
Proof.
  destruct (prepareUploadURL_query (RT := stubRuntime)
              (stubClient 200 "") exampleImage
              {| url.rest := defaultEndpoint; url.RawQuery := "" |}
              eq_refl)
    as (query & H & Hf & He & _ & Ha & Hr & Hs & _).
  exists query. repeat split; assumption.
Defined.

Lemma non_200_is_status_error_witness :
  let full := exampleResponse 413 "http://a/2 [Download]" in
  let fine := Ok (exampleResponse 200 "deadbeef (sha256)") in
  let err :=
    Some (ptrError {| StatusCode := 413;
                      Message := "http://a/2 [Download]" |}) in
  fst (Upload (RT := stubRuntime) tt exampleImage
         (methodClient "PUT" (Ok full) fine))
  = ({| Admin := ""; Download := ""; TorDownload := "" |}, err)
  /\ fst (GetHashsum (RT := stubRuntime) tt "abc"
            (methodClient "GET" (Ok full) fine))
     = ({| Algorithm := ""; Hashsum := "" |}, err)
  /\ fst (Delete (RT := stubRuntime) tt "http://a/1"
            (methodClient "DELETE" (Ok full) fine))
     = err
  /\ fst (GetTorEndpoint (RT := stubRuntime) tt
            (methodClient "GET" (Ok full) fine))
     = ("", err).
Proof.
  cbv zeta.
  destruct (non_200_is_status_error (RT := stubRuntime))
    as (HU & HH & HD & HT).
  split; [| split; [| split]].
  - eapply (HU _ tt exampleImage _ _
              (exampleResponse 413 "http://a/2 [Download]"));
      first [reflexivity | discriminate].
  - eapply (HH _ tt "abc" _ _
              (exampleResponse 413 "http://a/2 [Download]"));
      first [reflexivity | discriminate].
  - eapply (HD _ tt "http://a/1" _
              (exampleResponse 413 "http://a/2 [Download]"));
      first [reflexivity | discriminate].
  - eapply (HT _ tt _ _ (exampleResponse 413 "http://a/2 [Download]"));
      first [reflexivity | discriminate].
Defined.

Lemma GetTorEndpoint_verbatim_witness :
  fst (GetTorEndpoint (RT := stubRuntime) tt
         (stubClient 200 (String "010" " oshi.onion  ")))
  = (String "010" " oshi.onion  ", None).
Proof.
  eapply (GetTorEndpoint_verbatim (RT := stubRuntime) _ tt _ _
            (exampleResponse 200 (String "010" " oshi.onion  ")));
    reflexivity.
Defined.

Lemma parseUploadResponse_never_fails_witness :
  fst (Upload (RT := stubRuntime) tt exampleImage
         (stubClient 200 "<html>502 Bad Gateway</html>"))
  = ({| Admin := ""; Download := ""; TorDownload := "" |}, None)
  /\ parseUploadResponse (RT := stubRuntime) "see [http://] or http:// [x"
     = {| Admin := ""; Download := ""; TorDownload := "" |}
  /\ parseUploadResponse (RT := stubRuntime) "<html>502 Bad Gateway</html>"
     = {| Admin := ""; Download := ""; TorDownload := "" |}.
Proof.
  destruct (parseUploadResponse_never_fails (RT := stubRuntime)
              (stubClient 200 "<html>502 Bad Gateway</html>") tt exampleImage
              _ _ (exampleResponse 200 "<html>502 Bad Gateway</html>")
              "<html>502 Bad Gateway</html>" "see [http://] or http:// [x"
              "<html>502 Bad Gateway</html>"
              eq_refl eq_refl eq_refl eq_refl eq_refl eq_refl eq_refl)
    as (HU & Hu & Hg & _).
  split; [| split; [exact Hu | exact Hg]]. rewrite HU, Hg. reflexivity.
Defined.

Lemma parseUploadResponse_url_token_witness :
  FindAllStringSubmatch uploadResponseRegex
    (" " +:+ renderAll [otherLine; adminLine])
  = [["https://a/4 [Short]"; "https://a/4"; "Short"];
     ["http://a/1 [ADMIN]"; "http://a/1"; "ADMIN"]]
  /\ Admin (parseUploadResponse (RT := stubRuntime)
              (oneLine "https://[::1]:80/%zz?" "  " "aDmIn"))
     = "https://[::1]:80/%zz?"
  /\ Download (parseUploadResponse (RT := stubRuntime)
                 (oneLine "https://[::1]:80/%zz?" "  " "DOWNLOAD"))
     = "https://[::1]:80/%zz?"
  /\ TorDownload (parseUploadResponse (RT := stubRuntime)
                    (oneLine "https://[::1]:80/%zz?" "  " "tor download"))
     = "https://[::1]:80/%zz?".
Proof.
  apply (parseUploadResponse_url_token (RT := stubRuntime)
           " " [otherLine; adminLine] "https://[::1]:80/%zz?" "  "
           "aDmIn" "DOWNLOAD" "tor download");
    reflexivity.
Defined.

(** C6, as it was stated: a token that is free of white space but does not
    start with [http://] or [https://] is not assigned, whatever the case
    table of the runtime. *)
Lemma parseUploadResponse_url_token_counterexample :
  exists t : string,
    spaceless t = true /\ nonempty t = true
    /\ forall RT : Runtime,
         Admin (parseUploadResponse (RT := RT) (oneLine t " " "Admin")) <> t.
Proof.
  exists "ftp://a/1". split; [done |]. split; [done |].
  intros RT. vm_compute. discriminate.
Defined.

Lemma parseUploadResponse_last_wins_witness :
  let body :=
    "" +:+ renderAll ([adminLine; downloadLine]
                      ++ {| l_url := "http://b/9"; l_sep := " ";
                            l_label := "Admin"; l_pad := " " |}
                         :: [torLine]) in
  Admin (parseUploadResponse (RT := stubRuntime) body) = "http://b/9".
Proof.
  cbv zeta.
  apply (parseUploadResponse_last_wins (RT := stubRuntime) "" ""
           [adminLine; downloadLine]
           {| l_url := "http://b/9"; l_sep := " "; l_label := "Admin";
              l_pad := " " |}
           [torLine] eq_refl eq_refl eq_refl).
  reflexivity.
Defined.

Lemma parseHashsumResponse_well_formed_witness :
  parseHashsumResponse
    ("-- " +:+ "deadbeef" +:+ String "009" " " +:+ "(" +:+ "sha256 (hex)"
     +:+ ")" +:+ String "010" "")
  = ({| Algorithm := "sha256 (hex)"; Hashsum := "deadbeef" |}, None).
Proof.
  apply (parseHashsumResponse_well_formed
           "-- " "deadbeef" (String "009" " ") "sha256 (hex)"
           (String "010" ""));
    reflexivity.
Defined.

Lemma GetHashsum_ok_witness :
  exists err,
    fst (GetHashsum (RT := stubRuntime) tt "abc"
           (stubClient 200 "File not found"))
    = ({| Algorithm := ""; Hashsum := "" |}, Some err)
    /\ errors_Is err ErrWrongResponse = true
    /\ error_Error err = "wrong response: " +:+ "File not found"
    /\ forall e, err <> ptrError e.
Proof.
  destruct (GetHashsum_ok (RT := stubRuntime)
              (stubClient 200 "File not found") tt "abc" _ _
              (exampleResponse 200 "File not found") "File not found"
              eq_refl eq_refl eq_refl eq_refl eq_refl)
    as (_ & _ & H).
  apply H. reflexivity.
Defined.

Lemma transport_failure_is_wrapped_witness :
  let down := errorString "dial tcp: connection refused" in
  let fine := Ok (exampleResponse 200 "http://a/2 [Download]") in
  (exists err,
     fst (Upload (RT := stubRuntime) tt exampleImage
            (methodClient "PUT" (Fail down) fine))
     = ({| Admin := ""; Download := ""; TorDownload := "" |}, Some err)
     /\ wraps err down)
  /\ (exists err,
        fst (GetHashsum (RT := stubRuntime) tt "abc"
               (methodClient "GET" (Fail down) fine))
        = ({| Algorithm := ""; Hashsum := "" |}, Some err)
        /\ wraps err down)
  /\ (exists err,
        fst (Delete (RT := stubRuntime) tt "http://a/1"
               (methodClient "DELETE" (Fail down) fine))
        = Some err
        /\ wraps err down)
  /\ (exists err,
        fst (GetTorEndpoint (RT := stubRuntime) tt
               (methodClient "GET" (Fail down) fine))
        = ("", Some err)
        /\ wraps err down).
Proof.
  cbv zeta.
  destruct (transport_failure_is_wrapped (RT := stubRuntime))
    as (HU & HH & HD & HT).
  split; [| split; [| split]].
  - eapply (HU _ tt exampleImage); reflexivity.
  - eapply (HH _ tt "abc"); reflexivity.
  - eapply (HD _ tt "http://a/1"); reflexivity.
  - eapply (HT _ tt); reflexivity.
Defined.

Lemma unreadable_body_is_wrapped_witness :
  let cut := errorString "unexpected EOF" in
  let ok :=
    constClient (RT := stubRuntime)
      (Ok {| http.StatusCode := 200; http.ReadAll_Body := Fail cut |}) in
  let ko :=
    constClient (RT := stubRuntime)
      (Ok {| http.StatusCode := 500; http.ReadAll_Body := Fail cut |}) in
  (exists err,
     fst (Upload (RT := stubRuntime) tt exampleImage ok)
     = ({| Admin := ""; Download := ""; TorDownload := "" |}, Some err)
     /\ wraps err cut)
  /\ (exists err,
        fst (GetHashsum (RT := stubRuntime) tt "abc" ok)
        = ({| Algorithm := ""; Hashsum := "" |}, Some err)
        /\ wraps err cut)
  /\ (exists err,
        fst (Delete (RT := stubRuntime) tt "http://a/1" ko) = Some err
        /\ wraps err cut)
  /\ (exists err,
        fst (GetTorEndpoint (RT := stubRuntime) tt ok) = ("", Some err)
        /\ wraps err cut).
Proof.
  cbv zeta.
  destruct (unreadable_body_is_wrapped (RT := stubRuntime))
    as (HU & HH & HD & HT).
  split; [| split; [| split]].
  - eapply (HU _ tt exampleImage); reflexivity.
  - eapply (HH _ tt "abc"); reflexivity.
  - eapply (HD _ tt "http://a/1"); first [reflexivity | discriminate].
  - eapply (HT _ tt); reflexivity.
Defined.

Lemma Delete_ok_ignores_body_witness :
  let c :=
    constClient (RT := stubRuntime)
      (Ok {| http.StatusCode := 200;
             http.ReadAll_Body := Fail (errorString "unexpected EOF") |}) in
  fst (Delete (RT := stubRuntime) tt "http://a/1" c) = None
  /\ snd (Delete (RT := stubRuntime) tt "http://a/1" c) = c.
Proof.
  cbv zeta.
  eapply (Delete_ok_ignores_body (RT := stubRuntime)); reflexivity.
Defined.

Lemma unbuildable_url_is_wrapped_witness :
  let bad := errorString "invalid URL escape" in
  let c :=
    constClient (RT := faultyRuntime false)
      (Ok (exampleResponse 200 "http://a/2 [Download]")) in
  (exists err,
     fst (Upload (RT := faultyRuntime false) (Some tt) exampleImage c)
     = ({| Admin := ""; Download := ""; TorDownload := "" |}, Some err)
     /\ err = Errorf_w (Errorf_w bad)
     /\ errors_Is err bad = true
     /\ error_Error err = error_Error bad
     /\ forall e, err <> ptrError e)
  /\ (exists err,
        fst (GetHashsum (RT := faultyRuntime false) (Some tt) "abc" c)
        = ({| Algorithm := ""; Hashsum := "" |}, Some err)
        /\ wraps err bad)
  /\ (exists err,
        fst (GetTorEndpoint (RT := faultyRuntime false) (Some tt) c)
        = ("", Some err)
        /\ wraps err bad).
Proof.
  cbv zeta.
  destruct (unbuildable_url_is_wrapped (RT := faultyRuntime false))
    as (HU & HH & HT).
  split; [| split].
  - eapply HU; reflexivity.
  - eapply HH; reflexivity.
  - eapply HT; reflexivity.
Defined.

Lemma unbuildable_request_is_wrapped_witness :
  let nilctx := errorString "net/http: nil Context" in
  let badurl := errorString "invalid character in host name" in
  let c :=
    constClient (RT := faultyRuntime true)
      (Ok (exampleResponse 200 "http://a/2 [Download]")) in
  (exists err,
     fst (Upload (RT := faultyRuntime true) None exampleImage c)
     = ({| Admin := ""; Download := ""; TorDownload := "" |}, Some err)
     /\ wraps err nilctx)
  /\ (exists err,
        fst (GetHashsum (RT := faultyRuntime true) None "abc" c)
        = ({| Algorithm := ""; Hashsum := "" |}, Some err)
        /\ wraps err nilctx)
  /\ (exists err,
        fst (Delete (RT := faultyRuntime true) (Some tt) "http://a b/1" c)
        = Some err
        /\ wraps err badurl)
  /\ fst (Delete (RT := faultyRuntime true) (Some tt) "http://a/1" c) = None
  /\ (exists err,
        fst (GetTorEndpoint (RT := faultyRuntime true) None c)
        = ("", Some err)
        /\ wraps err nilctx).
Proof.
  cbv zeta.
  destruct (unbuildable_request_is_wrapped (RT := faultyRuntime true))
    as (HU & HH & HD & HT).
  split; [| split; [| split; [| split]]].
  - eapply HU; reflexivity.
  - eapply HH; reflexivity.
  - eapply HD; reflexivity.
  - reflexivity.
  - eapply HT; reflexivity.
Defined.

Lemma one_request_per_operation_witness :
  let answer := Ok (exampleResponse 200 "http://a/2 [Download]") in
  let down := Fail (errorString "dial tcp: connection refused") in
  let c := constClient (RT := stubRuntime) answer in
  fst (GetTorEndpoint (RT := stubRuntime) tt (methodClient "PUT" answer down))
  <> fst (GetTorEndpoint (RT := stubRuntime) tt c)
  /\ fst (Upload (RT := stubRuntime) tt
            (NewImage "other" "name_test" 0 false true true)
            (methodClient "PUT" answer down))
     = fst (Upload (RT := stubRuntime) tt exampleImage c)
  /\ fst (GetHashsum (RT := stubRuntime) tt "xyz"
            (methodClient "GET" answer down))
     = fst (GetHashsum (RT := stubRuntime) tt "abc" c)
  /\ fst (Delete (RT := stubRuntime) tt "http://b/2"
            (methodClient "DELETE" answer down))
     = fst (Delete (RT := stubRuntime) tt "http://a/1" c)
  /\ fst (GetTorEndpoint (RT := stubRuntime) tt
            (methodClient "GET" answer down))
     = fst (GetTorEndpoint (RT := stubRuntime) tt c).
Proof.
  cbv zeta.
  destruct (one_request_per_operation (RT := stubRuntime))
    as (HU & HH & HD & HT).
  split; [discriminate |]. split; [| split; [| split]].
  - eapply (HU (constClient _) (methodClient _ _ _) tt tt exampleImage);
      reflexivity.
  - eapply (HH (constClient _) (methodClient _ _ _) tt tt "abc" "xyz");
      reflexivity.
  - eapply (HD (constClient _) (methodClient _ _ _) tt tt "http://a/1"
              "http://b/2");
      reflexivity.
  - eapply (HT (constClient _) (methodClient _ _ _) tt tt); reflexivity.
Defined.

Lemma parseUploadResponse_two_parts_witness :
  parseUploadResponse (RT := stubRuntime)
    ((" " +:+ renderAll [adminLine; downloadLine])
     +:+ renderAll [torLine; otherLine])
  = overlay
      (parseUploadResponse (RT := stubRuntime)
         (" " +:+ renderAll [adminLine; downloadLine]))
      (parseUploadResponse (RT := stubRuntime)
         (renderAll [torLine; otherLine])).
Proof.
  apply (parseUploadResponse_two_parts (RT := stubRuntime) " "
           [adminLine; downloadLine] [torLine; otherLine]);
    reflexivity.
Defined.

Lemma fileID_of_download_witness :
  fileID ("https:" +:+ "//" +:+ "oshi.at" +:+ "/" +:+ "abcd") = Some "abcd"
  /\ fileID ("https:" +:+ "//" +:+ "oshi.at" +:+ "/" +:+ "abcd" +:+ "/"
             +:+ "name_test")
     = Some "abcd"
  /\ fileID "oshi.at/abcd" = None
  /\ fileID (Download (parseUploadResponse (RT := stubRuntime)
                         "<html>502 Bad Gateway</html>"))
     = None.
Proof.
  apply (fileID_of_download (RT := stubRuntime) "https:" "oshi.at" "abcd"
           "name_test" "oshi.at/abcd" "<html>502 Bad Gateway</html>");
    first [reflexivity | vm_compute; lia].
Defined.
